(** * BioSim: the predator-prey engine of [SimuladorVida.py]

    A shallow embedding of the simulation core: [Vector2] arithmetic,
    [SpatialGrid], [Entity]/[Food]/[Agent]/[Prey]/[Predator], [Camera] and
    [SimulationApp.run_sim_logic].

    Numbers.  Python floats are idealised as real numbers ([R]): every
    arithmetic operation is exact, [//] is the mathematical floor, and
    [Vector2.length] is the exact square root.

    Objects.  The entity lists of the application ([self.food], [self.prey],
    [self.preds]) are the object stores; a reference held by a grid bucket is
    the index of the object in its list.  The lists only grow during a tick,
    so an index keeps denoting the same object, and a mutation through a
    reference is a list update at that index.

    Randomness.  [random.random()] is the next element of a fixed sequence
    [draws]; the position in the sequence is threaded as state.

    Faults.  A raised exception ([ValueError] of [scale_to_length] on a null
    vector, [KeyError] of a missing gene, [ZeroDivisionError]) is [None]. *)

From Stdlib Require Import Reals Lra Lia ZArith List String Permutation.
From stdpp Require Import base option list gmap.
Import ListNotations.

Local Open Scope R_scope.

(** ** Configuration and constants *)

Definition SCREEN_W : R := 1280.
Definition SCREEN_H : R := 720.
Definition WORLD_W : R := 2000.
Definition WORLD_H : R := 2000.
Definition CELL_SIZE : R := 120.

Definition FOOD_RATE : R := 3 / 10.
Definition PREY_METABOLISM : R := 5 / 10.
Definition PRED_METABOLISM : R := 8 / 10.
Definition REPRO_COST_PREY : R := 100.
Definition REPRO_COST_PRED : R := 250.

(** ** Real-number comparisons as booleans *)

Definition Rltb (x y : R) : bool := if Rlt_dec x y then true else false.
Definition Rgtb (x y : R) : bool := Rltb y x.
Definition Reqb (x y : R) : bool := if Req_dec_T x y then true else false.

(** [int(x // d)]: floor division of floats, then truncation of a whole
    number. *)
Definition floordiv (x d : R) : Z := Int_part (x / d).

(** ** pygame.math.Vector2 *)

Record Vector2 : Type := mkV { vx : R; vy : R }.

Definition vzero : Vector2 := mkV 0 0.
Definition vadd (a b : Vector2) : Vector2 := mkV (vx a + vx b) (vy a + vy b).
Definition vsub (a b : Vector2) : Vector2 := mkV (vx a - vx b) (vy a - vy b).
Definition vscale (a : Vector2) (k : R) : Vector2 := mkV (vx a * k) (vy a * k).
Definition length_squared (a : Vector2) : R := vx a * vx a + vy a * vy a.
Definition vlength (a : Vector2) : R := sqrt (length_squared a).
Definition distance_to (a b : Vector2) : R := vlength (vsub b a).

(** [v.scale_to_length(l)] raises [ValueError] on a vector of length zero. *)
Definition scale_to_length (a : Vector2) (l : R) : option Vector2 :=
  if Reqb (vlength a) 0 then None else Some (vscale a (l / vlength a)).

(** [v.normalize()] raises [ValueError] on a vector of length zero. *)
Definition normalize (a : Vector2) : option Vector2 :=
  if Reqb (vlength a) 0 then None else Some (vscale a (/ vlength a)).

Definition rotate_rad (a : Vector2) (t : R) : Vector2 :=
  mkV (vx a * cos t - vy a * sin t) (vx a * sin t + vy a * cos t).

(** [v / k] raises [ZeroDivisionError] when [k] is zero. *)
Definition vdiv (a : Vector2) (k : R) : option Vector2 :=
  if Reqb k 0 then None else Some (mkV (vx a / k) (vy a / k)).

(** ** Entities *)

(** [class Entity]: a position and the [active] flag. *)
Record Entity : Type := mkEntity { pos : Vector2; active : bool }.

Definition Entity_init (x y : R) : Entity := mkEntity (mkV x y) true.

(** [class Food(Entity)] adds only a drawing method. *)
Definition Food : Type := Entity.

Definition deactivate (e : Entity) : Entity := mkEntity (pos e) false.

(** ** SpatialGrid *)

(** A reference to an object: its index in the list that owns it. *)
Definition Ref : Type := nat.

Definition Cell : Type := (Z * Z)%type.

(** [self.cells]: a dict from cell coordinates to a list of references. *)
Abbreviation Cells := (gmap (Z * Z) (list Ref)).

Definition cell_of (p : Vector2) : Cell :=
  (floordiv (vx p) CELL_SIZE, floordiv (vy p) CELL_SIZE).

Definition grid_clear : Cells := ∅.

(** [add(obj)]: [obj] is the reference [r], whose position is [p]. *)
Definition grid_add (cells : Cells) (r : Ref) (p : Vector2) : Cells :=
  let idx := cell_of p in
  let cells1 := match cells !! idx with
                | Some _ => cells
                | None => <[idx := []]> cells
                end in
  <[idx := default [] (cells1 !! idx) ++ [r]]> cells1.

(** Python's [range(a, b)]. *)
Definition zrange (a b : Z) : list Z := seqZ a (b - a).

(** [get_nearby(pos, r)]: buckets of the square of cells around [pos], the
    x loop outside, the y loop inside. *)
Definition get_nearby (cells : Cells) (p : Vector2) (r : Z) : list Ref :=
  let '(cx, cy) := cell_of p in
  flat_map (fun x =>
    flat_map (fun y =>
      match cells !! (x, y) with
      | Some bucket => bucket
      | None => []
      end) (zrange (cy - r) (cy + r + 1)))
    (zrange (cx - r) (cx + r + 1)).

(** [for o in objs: grid.add(o)], the objects being those of a store, in
    order, from index [i] on. *)
Fixpoint grid_register (cells : Cells) (i : nat) (objs : list Vector2) : Cells :=
  match objs with
  | [] => cells
  | p :: rest => grid_register (grid_add cells i p) (S i) rest
  end.

(** ** Genomes *)

(** [dna]: a dict with insertion order, from gene name to value. *)
Definition Dna : Type := list (string * R).

(** [dna[k]]; [None] is [KeyError]. *)
Fixpoint dna_get (k : string) (d : Dna) : option R :=
  match d with
  | [] => None
  | (k', v) :: rest => if String.eqb k k' then Some v else dna_get k rest
  end.

Definition PREY_DNA : Dna :=
  [("speed"%string, 35 / 10); ("force"%string, 5 / 10); ("sense"%string, 100)].
Definition PRED_DNA : Dna :=
  [("speed"%string, 42 / 10); ("force"%string, 3 / 10); ("sense"%string, 180)].

(** [dna if dna else default]: [None] and the empty dict are falsy. *)
Definition dna_or (d : option Dna) (dflt : Dna) : Dna :=
  match d with
  | Some (g :: rest) => g :: rest
  | _ => dflt
  end.

(** ** Agents *)

(** [class Agent(Entity)]; [radius] and [color] only serve drawing and are
    left out. *)
Record Agent : Type := mkAgent {
  ent :> Entity;
  vel : Vector2;
  acc : Vector2;
  dna : Dna;
  energy : R;
  max_energy : R;
  wander_theta : R
}.

Definition set_pos (a : Agent) (p : Vector2) : Agent :=
  mkAgent (mkEntity p (active a)) (vel a) (acc a) (dna a) (energy a)
          (max_energy a) (wander_theta a).
Definition set_active (a : Agent) (b : bool) : Agent :=
  mkAgent (mkEntity (pos a) b) (vel a) (acc a) (dna a) (energy a)
          (max_energy a) (wander_theta a).
Definition set_vel (a : Agent) (v : Vector2) : Agent :=
  mkAgent (ent a) v (acc a) (dna a) (energy a) (max_energy a) (wander_theta a).
Definition set_acc (a : Agent) (v : Vector2) : Agent :=
  mkAgent (ent a) (vel a) v (dna a) (energy a) (max_energy a) (wander_theta a).
Definition set_energy (a : Agent) (e : R) : Agent :=
  mkAgent (ent a) (vel a) (acc a) (dna a) e (max_energy a) (wander_theta a).
Definition set_wander_theta (a : Agent) (t : R) : Agent :=
  mkAgent (ent a) (vel a) (acc a) (dna a) (energy a) (max_energy a) t.

(** One axis of [edges]: the two tests in sequence, the second reading what
    the first wrote. *)
Definition wrap_axis (x w : R) : R :=
  let x1 := if Rgtb x w then 0 else x in
  if Rltb x1 0 then w else x1.

(** [Agent.edges] *)
Definition edges (a : Agent) : Agent :=
  set_pos a (mkV (wrap_axis (vx (pos a)) WORLD_W) (wrap_axis (vy (pos a)) WORLD_H)).

(** [Agent.update_physics] *)
Definition update_physics (a : Agent) : option Agent :=
  let v1 := vadd (vel a) (acc a) in
  speed ← dna_get "speed" (dna a);
  v2 ← (if Rgtb (vlength v1) speed then scale_to_length v1 speed else Some v1);
  let a1 := set_vel a v2 in
  let a2 := set_pos a1 (vadd (pos a1) v2) in
  let a3 := set_acc a2 (vscale (acc a2) 0) in
  Some (edges a3).

(** [Agent.steer] *)
Definition steer (a : Agent) (target : Vector2) (mult : R) : option Vector2 :=
  let desired := vsub target (pos a) in
  if Reqb (vlength desired) 0 then Some vzero else
  speed ← dna_get "speed" (dna a);
  desired1 ← scale_to_length desired speed;
  let st := vsub desired1 (vel a) in
  force ← dna_get "force" (dna a);
  st1 ← (if Rgtb (vlength st) force then scale_to_length st force else Some st);
  Some (vscale st1 mult).

(** ** Nearest-target scans

    The three loops of the behaviours keep the nearest object seen so far and
    its distance, starting from the [sense] radius; [skip_inactive] is the
    [if not o.active: continue] of the food and prey scans.  A reference is
    resolved in its store by [look]. *)
Definition scan_step (look : Ref -> option Entity) (skip_inactive : bool)
    (me : Vector2) (st : option (option Ref * R)) (r : Ref)
    : option (option Ref * R) :=
  '(closest, min_dist) ← st;
  o ← look r;
  if skip_inactive && negb (active o) then Some (closest, min_dist) else
  let d := distance_to me (pos o) in
  if Rltb d min_dist then Some (Some r, d) else Some (closest, min_dist).

Definition scan (look : Ref -> option Entity) (skip_inactive : bool)
    (me : Vector2) (refs : list Ref) (sense : R) : option (option Ref * R) :=
  fold_left (scan_step look skip_inactive me) refs (Some (None, sense)).

Definition look_entity (store : list Entity) (r : Ref) : option Entity :=
  store !! r.
Definition look_agent (store : list Agent) (r : Ref) : option Entity :=
  ent <$> store !! r.

(** [store[r].active = False] *)
Definition kill_food (store : list Food) (r : Ref) : list Food :=
  alter deactivate r store.
Definition kill_agent (store : list Agent) (r : Ref) : list Agent :=
  alter (fun a => set_active a false) r store.

(** ** Camera *)

Record Camera : Type := mkCamera {
  zoom_level : R;
  target_zoom : R;
  offset : Vector2;
  overview_mode : bool
}.

Definition Camera_init : Camera := mkCamera 1 1 vzero false.

Definition toggle_overview (c : Camera) : Camera :=
  let ov := negb (overview_mode c) in
  if ov then
    let scale_x := SCREEN_W / WORLD_W in
    let scale_y := SCREEN_H / WORLD_H in
    mkCamera (zoom_level c) (Rmin scale_x scale_y * (9 / 10)) (offset c) ov
  else mkCamera (zoom_level c) 1 (offset c) ov.

(** [Camera.update]: both branches of the source compute the same offset. *)
Definition Camera_update (c : Camera) : Camera :=
  let z := zoom_level c + (target_zoom c - zoom_level c) * (1 / 10) in
  mkCamera z (target_zoom c)
           (mkV (- ((WORLD_W * z - SCREEN_W) / 2)) (- ((WORLD_H * z - SCREEN_H) / 2)))
           (overview_mode c).

(** [Camera.unapply]: screen position to world position. *)
Definition unapply (c : Camera) (screen_pos : Vector2) : option Vector2 :=
  vdiv (vsub screen_pos (offset c)) (zoom_level c).

(** ** Events and application state *)

Inductive Key : Type := K_ESCAPE | K_SPACE | K_OTHER.

(** What [pygame.event.get()] yields; a mouse press carries the pointer
    position that [pygame.mouse.get_pos()] returns while it is handled. *)
Inductive Event : Type :=
  | QUIT
  | KEYDOWN (k : Key)
  | MOUSEBUTTONDOWN (button : Z) (mouse : Vector2)
  | OTHER_EVENT.

Inductive AppState : Type := INTRO | SIM | GAMEOVER.

(** The fields of [SimulationApp] that [run_sim_logic] reads or writes. *)
Record SimulationApp : Type := mkApp {
  food : list Food;
  prey : list Agent;
  preds : list Agent;
  grid_food : Cells;
  grid_prey : Cells;
  grid_preds : Cells;
  stats_history_prey : list nat;
  stats_history_pred : list nat;
  max_prey : nat;
  max_pred : nat;
  camera : Camera;
  running : bool;
  state : AppState
}.

(** [deque(maxlen=200).append]: the oldest sample leaves a full buffer. *)
Definition deque_append (d : list nat) (x : nat) : list nat :=
  let d1 := d ++ [x] in
  if (200 <? length d1)%nat then tail d1 else d1.

(** [prey = [p for p in prey if p.active and p.energy > 0]] *)
Definition alive (a : Agent) : bool := active a && Rgtb (energy a) 0.

(** ** The monad of the stepping code: a position in the sequence of random
    draws, and faults *)

Definition M (A : Type) : Type := nat -> option (A * nat).

Definition ret {A} (x : A) : M A := fun k => Some (x, k).
Definition bind {A B} (m : M A) (f : A -> M B) : M B :=
  fun k => match m k with
           | Some (x, k') => f x k'
           | None => None
           end.
Definition lift {A} (o : option A) : M A :=
  fun k => match o with Some x => Some (x, k) | None => None end.

Declare Scope m_scope.
Delimit Scope m_scope with M.
Notation "x <~ m ;; f" := (bind m (fun x => f))
  (at level 100, m at next level, right associativity) : m_scope.

Section Stepping.

(** The outcomes of [random.random()], in the order of the calls. *)
Variable draws : nat -> R.

Local Open Scope m_scope.

Definition random : M R := fun k => Some (draws k, S k).

(** [random.uniform(a, b)] is [a + (b - a) * random()]. *)
Definition uniform (a b : R) : M R :=
  u <~ random ;; ret (a + (b - a) * u).

(** [random.randint(a, b)]: a whole number between [a] and [b], both
    included, here the one that the draw selects among the [b - a + 1]. *)
Definition randint (a b : Z) : M R :=
  u <~ random ;; ret (IZR (a + Int_part (u * IZR (b - a + 1)))).

(** [Agent.__init__]: the velocity components, then the wander angle. *)
Definition Agent_init (x y : R) (d : Dna) : M Agent :=
  v1 <~ uniform (-1) 1 ;;
  v2 <~ uniform (-1) 1 ;;
  th <~ uniform 0 100 ;;
  ret (mkAgent (Entity_init x y) (mkV v1 v2) vzero d 150 400 th).

(** [Prey.__init__] *)
Definition Prey_init (x y : R) (d : option Dna) : M Agent :=
  Agent_init x y (dna_or d PREY_DNA).

(** [Predator.__init__] *)
Definition Predator_init (x y : R) (d : option Dna) : M Agent :=
  a <~ Agent_init x y (dna_or d PRED_DNA) ;;
  ret (set_energy a 300).

(** [Food(x, y)] *)
Definition Food_init (x y : R) : Food := Entity_init x y.

(** The first two priorities of [Prey.update], flee and eat: the force, the
    agent (its energy) and the food store that they leave. *)
Definition Prey_decide (a : Agent) (foods : list Food) (neighbors_food : list Ref)
    (preds_store : list Agent) (neighbors_pred : list Ref)
    : option (Vector2 * Agent * list Food) :=
  sense ← dna_get "sense" (dna a);
  sp ← scan (look_agent preds_store) false (pos a) neighbors_pred sense;
  match sp.1 with
  | Some p =>
      target ← look_agent preds_store p;
      f ← steer a (pos target) (-5);
      Some (vadd vzero f, a, foods)
  | None =>
      if Rltb (energy a) (max_energy a) then
        sense' ← dna_get "sense" (dna a);
        sf ← scan (look_entity foods) true (pos a) neighbors_food sense';
        match sf.1 with
        | Some fd =>
            target ← look_entity foods fd;
            f ← steer a (pos target) (15 / 10);
            if Rltb sf.2 10
            then Some (vadd vzero f, set_energy a (energy a + 50), kill_food foods fd)
            else Some (vadd vzero f, a, foods)
        | None => Some (vzero, a, foods)
        end
      else Some (vzero, a, foods)
  end.

(** The third priority of [Prey.update], wander, taken when the force so far
    is short. *)
Definition Prey_wander (a : Agent) (force : Vector2) : M (Vector2 * Agent) :=
  if Rltb (vlength force) (1 / 10) then
    du <~ uniform (- (3 / 10)) (3 / 10) ;;
    let a1 := set_wander_theta a (wander_theta a + du) in
    circle <~ lift (if Rgtb (vlength (vel a1)) 0
                    then n ← normalize (vel a1); Some (vscale n 30)
                    else Some (mkV 1 0)) ;;
    let off := rotate_rad (mkV 10 0) (wander_theta a1) in
    f <~ lift (steer a1 (vadd (vadd (pos a1) circle) off) (5 / 10)) ;;
    ret (vadd force f, a1)
  else ret (force, a).

(** [Prey.update(grid_food, grid_pred)]: the food objects and the predators
    that the grids refer to are the stores [foods] and [preds_store]. *)
Definition Prey_update (a : Agent) (foods : list Food) (gfood : Cells)
    (preds_store : list Agent) (gpred : Cells) : M (Agent * list Food) :=
  let a1 := set_energy a
              (energy a - (PREY_METABOLISM + length_squared (vel a) * (1 / 100))) in
  let neighbors_pred := get_nearby gpred (pos a1) 1 in
  let neighbors_food := get_nearby gfood (pos a1) 1 in
  dec <~ lift (Prey_decide a1 foods neighbors_food preds_store neighbors_pred) ;;
  let '(force, a2, foods1) := dec in
  w <~ Prey_wander a2 force ;;
  let '(force1, a3) := w in
  let a4 := set_acc a3 (vadd (acc a3) force1) in
  a5 <~ lift (update_physics a4) ;;
  ret (a5, foods1).

(** The hunt of [Predator.update]: the force, the agent and the prey store
    that it leaves, or the patrol when no prey is in reach. *)
Definition Predator_decide (a : Agent) (prey_store : list Agent)
    (neighbors : list Ref) : M (Vector2 * Agent * list Agent) :=
  sense <~ lift (dna_get "sense" (dna a)) ;;
  sc <~ lift (scan (look_agent prey_store) true (pos a) neighbors sense) ;;
  match sc.1 with
  | Some p =>
      target <~ lift (look_agent prey_store p) ;;
      f <~ lift (steer a (pos target) (12 / 10)) ;;
      if Rltb sc.2 12
      then ret (vadd vzero f, set_energy a (energy a + 120), kill_agent prey_store p)
      else ret (vadd vzero f, a, prey_store)
  | None =>
      du <~ uniform (- (1 / 10)) (1 / 10) ;;
      let a1 := set_wander_theta a (wander_theta a + du) in
      ret (vadd vzero (vscale (rotate_rad (mkV 1 0) (wander_theta a1)) (5 / 10)),
           a1, prey_store)
  end.

(** [Predator.update(grid_prey)] *)
Definition Predator_update (a : Agent) (prey_store : list Agent) (gprey : Cells)
    : M (Agent * list Agent) :=
  let a1 := set_energy a
              (energy a - (PRED_METABOLISM + length_squared (vel a) * (1 / 100))) in
  let neighbors := get_nearby gprey (pos a1) 2 in
  dec <~ Predator_decide a1 prey_store neighbors ;;
  let '(force, a2, prey1) := dec in
  let a3 := set_acc a2 (vadd (acc a2) force) in
  a4 <~ lift (update_physics a3) ;;
  ret (a4, prey1).

(** [{k: v * random.uniform(0.9, 1.1) for k, v in dna.items()}] *)
Fixpoint mutate (d : Dna) : M Dna :=
  match d with
  | [] => ret []
  | (k, v) :: rest =>
      u <~ uniform (9 / 10) (11 / 10) ;;
      rest' <~ mutate rest ;;
      ret ((k, v * u) :: rest')
  end.

(** The reproduction test that follows each update in [run_sim_logic]: the
    parent after it, and what it appends to the list of the newborn. *)
Definition reproduce (init : R -> R -> option Dna -> M Agent) (cost : R)
    (p : Agent) : M (Agent * list Agent) :=
  if Rgtb (energy p) (cost + 50) then
    let p1 := set_energy p (energy p - cost) in
    new_dna <~ mutate (dna p1) ;;
    child <~ init (vx (pos p1)) (vy (pos p1)) (Some new_dna) ;;
    ret (p1, [child])
  else ret (p, []).

(** [for p in self.prey: ...] of the prey logic: the prey in their state after
    the pass, the list [new_prey], and the food store. *)
Fixpoint prey_loop (ps : list Agent) (foods : list Food) (gfood : Cells)
    (preds_store : list Agent) (gpred : Cells)
    : M (list Agent * list Agent * list Food) :=
  match ps with
  | [] => ret ([], [], foods)
  | p :: rest =>
      u <~ Prey_update p foods gfood preds_store gpred ;;
      r <~ reproduce Prey_init REPRO_COST_PREY u.1 ;;
      t <~ prey_loop rest u.2 gfood preds_store gpred ;;
      ret (r.1 :: t.1.1, r.2 ++ t.1.2, t.2)
  end.

(** [for p in self.preds: ...] of the predator logic: the predators after the
    pass, the list [new_preds], and the prey store. *)
Fixpoint preds_loop (ps : list Agent) (prey_store : list Agent) (gprey : Cells)
    : M (list Agent * list Agent * list Agent) :=
  match ps with
  | [] => ret ([], [], prey_store)
  | p :: rest =>
      u <~ Predator_update p prey_store gprey ;;
      r <~ reproduce Predator_init REPRO_COST_PRED u.1 ;;
      t <~ preds_loop rest u.2 gprey ;;
      ret (r.1 :: t.1.1, r.2 ++ t.1.2, t.2)
  end.

(** One event of the input loop of [run_sim_logic]. *)
Definition handle_event (app : SimulationApp) (ev : Event) : M SimulationApp :=
  match ev with
  | QUIT =>
      ret (mkApp (food app) (prey app) (preds app) (grid_food app) (grid_prey app)
                 (grid_preds app) (stats_history_prey app) (stats_history_pred app)
                 (max_prey app) (max_pred app) (camera app) false (state app))
  | KEYDOWN K_ESCAPE =>
      ret (mkApp (food app) (prey app) (preds app) (grid_food app) (grid_prey app)
                 (grid_preds app) (stats_history_prey app) (stats_history_pred app)
                 (max_prey app) (max_pred app) (camera app) (running app) GAMEOVER)
  | KEYDOWN _ => ret app
  | MOUSEBUTTONDOWN button mouse =>
      let cam := if (button =? 3)%Z then toggle_overview (camera app)
                 else camera app in
      if (button =? 1)%Z then
        world_pos <~ lift (unapply cam mouse) ;;
        p <~ Predator_init (vx world_pos) (vy world_pos) None ;;
        ret (mkApp (food app) (prey app) (preds app ++ [p]) (grid_food app)
                   (grid_prey app) (grid_preds app) (stats_history_prey app)
                   (stats_history_pred app) (max_prey app) (max_pred app) cam
                   (running app) (state app))
      else
        ret (mkApp (food app) (prey app) (preds app) (grid_food app)
                   (grid_prey app) (grid_preds app) (stats_history_prey app)
                   (stats_history_pred app) (max_prey app) (max_pred app) cam
                   (running app) (state app))
  | OTHER_EVENT => ret app
  end.

Fixpoint handle_events (app : SimulationApp) (evs : list Event) : M SimulationApp :=
  match evs with
  | [] => ret app
  | ev :: rest => app1 <~ handle_event app ev ;; handle_events app1 rest
  end.

(** Steps 2 and 3 of [run_sim_logic]: the grids cleared, the inactive food
    and the dead agents dropped. *)
Definition prune (app : SimulationApp) : SimulationApp :=
  mkApp (List.filter active (food app)) (List.filter alive (prey app))
        (List.filter alive (preds app)) grid_clear grid_clear grid_clear
        (stats_history_prey app) (stats_history_pred app)
        (max_prey app) (max_pred app) (camera app) (running app) (state app).

(** The food regrowth of step 4. *)
Definition regrow (foods : list Food) : M (list Food) :=
  if (length foods <? 800)%nat then
    u <~ random ;;
    if Rltb u FOOD_RATE then
      x <~ randint 0 2000 ;;
      y <~ randint 0 2000 ;;
      ret (foods ++ [Food_init x y])
    else ret foods
  else ret foods.

(** [run_sim_logic] from the rebuilding of the grids to its end: one tick of
    the ecosystem.  [ticks] is what [pygame.time.get_ticks()] returns. *)
Definition step (app : SimulationApp) (ticks : Z) : M SimulationApp :=
  let app1 := prune app in
  if (length (prey app1) =? 0)%nat && (length (preds app1) =? 0)%nat then
    ret (mkApp (food app1) (prey app1) (preds app1) (grid_food app1)
               (grid_prey app1) (grid_preds app1) (stats_history_prey app1)
               (stats_history_pred app1) (max_prey app1) (max_pred app1)
               (camera app1) (running app1) GAMEOVER)
  else
    let gfood := grid_register (grid_food app1) 0 (map pos (food app1)) in
    let gprey := grid_register (grid_prey app1) 0 (map (fun a : Agent => pos a) (prey app1)) in
    let gpreds := grid_register (grid_preds app1) 0 (map (fun a : Agent => pos a) (preds app1)) in
    food1 <~ regrow (food app1) ;;
    pl <~ prey_loop (prey app1) food1 gfood (preds app1) gpreds ;;
    let prey1 := pl.1.1 ++ pl.1.2 in
    dl <~ preds_loop (preds app1) prey1 gprey ;;
    let preds1 := dl.1.1 ++ dl.1.2 in
    let prey2 := dl.2 in
    let mprey := Nat.max (max_prey app1) (length prey2) in
    let mpred := Nat.max (max_pred app1) (length preds1) in
    let sample := (ticks mod 10 =? 0)%Z in
    ret (mkApp pl.2 prey2 preds1 gfood gprey gpreds
               (if sample then deque_append (stats_history_prey app1) (length prey2)
                else stats_history_prey app1)
               (if sample then deque_append (stats_history_pred app1) (length preds1)
                else stats_history_pred app1)
               mprey mpred (camera app1) (running app1) (state app1)).

(** [SimulationApp.run_sim_logic] *)
Definition run_sim_logic (app : SimulationApp) (evs : list Event) (ticks : Z)
    : M SimulationApp :=
  app1 <~ handle_events app evs ;;
  let app2 := mkApp (food app1) (prey app1) (preds app1) (grid_food app1)
                    (grid_prey app1) (grid_preds app1) (stats_history_prey app1)
                    (stats_history_pred app1) (max_prey app1) (max_pred app1)
                    (Camera_update (camera app1)) (running app1) (state app1) in
  step app2 ticks.

End Stepping.

(** ** Well-formed genomes: the genes that the code reads, all positive *)
Definition wf_dna (d : Dna) : Prop :=
  exists speed force sense,
    dna_get "speed" d = Some speed /\ dna_get "force" d = Some force /\
    dna_get "sense" d = Some sense /\ 0 < speed /\ 0 < force /\ 0 < sense.

(** The world with its far edges: what [edges] and the seeding by
    [randint(0, WORLD_W)] keep positions in. *)
Definition in_world (p : Vector2) : Prop :=
  0 <= vx p <= WORLD_W /\ 0 <= vy p <= WORLD_H.

(** ** Buckets and squares of cells *)

(** [cells.get(c, [])]: what the grid holds for cell [c]. *)
Definition bucket (cells : Cells) (c : Cell) : list Ref := default [] (cells !! c).

(** The grid of a tick: cleared, then every object of a store added. *)
Definition build_grid (objs : list Vector2) : Cells :=
  grid_register grid_clear 0 objs.

(** Cell [c] lies in the square of side [2 * r + 1] around [center]: its
    Chebyshev distance to [center], in cells, is at most [r]. *)
Definition in_square (center c : Cell) (r : Z) : Prop :=
  (center.1 - r <= c.1 <= center.1 + r /\ center.2 - r <= c.2 <= center.2 + r)%Z.

#[global] Instance in_square_dec center c r : Decision (in_square center c r).
Proof. unfold in_square. apply _. Defined.

(** The references, from [i] on, of the objects of [objs] that fall in cell
    [c], and of those that fall in the square around [center]. *)
Fixpoint cell_members (c : Cell) (i : nat) (objs : list Vector2) : list Ref :=
  match objs with
  | [] => []
  | p :: rest =>
      (if decide (cell_of p = c) then [i] else []) ++ cell_members c (S i) rest
  end.

Fixpoint square_members (center : Cell) (r : Z) (i : nat) (objs : list Vector2)
    : list Ref :=
  match objs with
  | [] => []
  | p :: rest =>
      (if decide (in_square center (cell_of p) r) then [i] else [])
      ++ square_members center r (S i) rest
  end.

(** ** Nearest targets *)

(** What a scan may pick: an object that resolves and, where the loop skips
    the inactive, is active. *)
Definition eligible (look : Ref -> option Entity) (skip_inactive : bool)
    (r : Ref) (o : Entity) : Prop :=
  look r = Some o /\ (skip_inactive = true -> active o = true).

(** [r], at distance [d], is a nearest eligible object of [refs], closer than
    [sense]. *)
Definition nearest (look : Ref -> option Entity) (skip_inactive : bool)
    (me : Vector2) (refs : list Ref) (sense : R) (r : Ref) (d : R) : Prop :=
  r ∈ refs /\ d < sense /\
  (exists o, eligible look skip_inactive r o /\ d = distance_to me (pos o)) /\
  forall r' o', r' ∈ refs -> eligible look skip_inactive r' o' ->
                d <= distance_to me (pos o').

(** No eligible object of [refs] is closer than [sense]. *)
Definition none_in_reach (look : Ref -> option Entity) (skip_inactive : bool)
    (me : Vector2) (refs : list Ref) (sense : R) : Prop :=
  forall r' o', r' ∈ refs -> eligible look skip_inactive r' o' ->
                sense <= distance_to me (pos o').

(** Every reference resolves in its store. *)
Definition refs_valid (look : Ref -> option Entity) (refs : list Ref) : Prop :=
  forall r, r ∈ refs -> is_Some (look r).

(** The outcomes of the first two priorities of a prey with sense radius
    [sense]: flee, stay put when sated, find no food, or go for the nearest
    food and eat it when it is less than 10 away. *)
Definition prey_decision (a : Agent) (foods : list Food) (neighbors_food : list Ref)
    (preds_store : list Agent) (neighbors_pred : list Ref) (sense : R)
    (force : Vector2) (a' : Agent) (foods' : list Food) : Prop :=
  (exists p d q f,
     nearest (look_agent preds_store) false (pos a) neighbors_pred sense p d /\
     look_agent preds_store p = Some q /\
     steer a (pos q) (-5) = Some f /\
     force = vadd vzero f /\ a' = a /\ foods' = foods)
  \/
  (none_in_reach (look_agent preds_store) false (pos a) neighbors_pred sense /\
   ((max_energy a <= energy a /\ force = vzero /\ a' = a /\ foods' = foods)
    \/
    (energy a < max_energy a /\
     none_in_reach (look_entity foods) true (pos a) neighbors_food sense /\
     force = vzero /\ a' = a /\ foods' = foods)
    \/
    (energy a < max_energy a /\
     exists fd d o f,
       nearest (look_entity foods) true (pos a) neighbors_food sense fd d /\
       look_entity foods fd = Some o /\
       steer a (pos o) (15 / 10) = Some f /\
       force = vadd vzero f /\
       ((d < 10 /\ a' = set_energy a (energy a + 50) /\
         foods' = kill_food foods fd)
        \/ (10 <= d /\ a' = a /\ foods' = foods))))).

(** The outcomes of a predator with sense radius [sense]: go for the nearest
    active prey and catch it when it is less than 12 away, or patrol. *)
Definition pred_decision (a : Agent) (prey_store : list Agent)
    (neighbors : list Ref) (sense : R)
    (force : Vector2) (a' : Agent) (prey' : list Agent) : Prop :=
  (exists p d q f,
     nearest (look_agent prey_store) true (pos a) neighbors sense p d /\
     look_agent prey_store p = Some q /\
     steer a (pos q) (12 / 10) = Some f /\
     force = vadd vzero f /\
     ((d < 12 /\ a' = set_energy a (energy a + 120) /\
       prey' = kill_agent prey_store p)
      \/ (12 <= d /\ a' = a /\ prey' = prey_store)))
  \/
  (none_in_reach (look_agent prey_store) true (pos a) neighbors sense /\
   prey' = prey_store /\
   exists du, a' = set_wander_theta a (wander_theta a + du) /\
              force = vadd vzero (vscale (rotate_rad (mkV 1 0) (wander_theta a'))
                                         (5 / 10))).

(** Every reference that the grid holds is below [n]. *)
Definition grid_bounded (g : Cells) (n : nat) : Prop :=
  forall c (r : Ref), r ∈ bucket g c -> (r < n)%nat.

(** ** Passes over the populations *)

(** What a tick costs before anything else. *)
Definition prey_metabolism (p : Agent) : R :=
  PREY_METABOLISM + length_squared (vel p) * (1 / 100).
Definition pred_metabolism (p : Agent) : R :=
  PRED_METABOLISM + length_squared (vel p) * (1 / 100).

Definition sumR (l : list R) : R := fold_right Rplus 0 l.

(** The number of objects of a store that are still active. *)
Definition count_active (store : list Entity) : nat :=
  length (List.filter active store).

(** One meal: nothing changes and nothing is gained, or one object that was
    active is deactivated and [reward] is gained. *)
Definition meal (store store' : list Entity) (reward gain : R) : Prop :=
  (store' = store /\ gain = 0) \/
  (exists r o, store !! r = Some o /\ active o = true /\
               store' = alter deactivate r store /\ gain = reward).

(** The reproduction test on an agent [u] that has just been updated: the
    parent [q] that stays in the list and the children [kids] that go to the
    list of the newborn.  A child is what the constructor [init] returns for
    the parent's position and the mutated genome. *)
Definition repro_outcome (draws : nat -> R)
    (init : (nat -> R) -> R -> R -> option Dna -> M Agent) (cost : R)
    (u q : Agent) (kids : list Agent) : Prop :=
  (energy u > cost + 50 /\ q = set_energy u (energy u - cost) /\
   exists child new_dna k1 k2 k3,
     kids = [child] /\
     mutate draws (dna u) k1 = Some (new_dna, k2) /\
     init draws (vx (pos u)) (vy (pos u)) (Some new_dna) k2 = Some (child, k3) /\
     pos child = pos u /\ dna child = new_dna /\ active child = true /\
     acc child = vzero)
  \/ (energy u <= cost + 50 /\ q = u /\ kids = []).

(** A prey [p] of the pass, the same prey [q] after the pass and its
    children: [u] is the prey as [Prey.update] left it, on the food store
    [foods_i] that the earlier prey of the pass left. *)
Definition prey_pass_rel (draws : nat -> R) (gfood : Cells)
    (preds_store : list Agent) (gpred : Cells) (nfoods : nat)
    (p q : Agent) (kids : list Agent) : Prop :=
  exists foods_i k_i u foods_i' k_i' gain,
    length foods_i = nfoods /\
    Prey_update draws p foods_i gfood preds_store gpred k_i
      = Some ((u, foods_i'), k_i') /\
    meal foods_i foods_i' 50 gain /\
    energy u = energy p - prey_metabolism p + gain /\
    (gain <> 0 -> energy p - prey_metabolism p < max_energy p) /\
    repro_outcome draws Prey_init REPRO_COST_PREY u q kids /\
    Forall (fun c => energy c = 150) kids.

(** The same for a predator, on the prey store [prey_i]. *)
Definition pred_pass_rel (draws : nat -> R) (gprey : Cells) (nprey : nat)
    (p q : Agent) (kids : list Agent) : Prop :=
  exists prey_i k_i u prey_i' k_i' gain,
    length prey_i = nprey /\
    Predator_update draws p prey_i gprey k_i = Some ((u, prey_i'), k_i') /\
    meal (map ent prey_i) (map ent prey_i') 120 gain /\
    energy u = energy p - pred_metabolism p + gain /\
    repro_outcome draws Predator_init REPRO_COST_PRED u q kids /\
    Forall (fun c => energy c = 300) kids.

(** [random.random()] returns a number of [[0, 1)]. *)
Definition unit_draws (draws : nat -> R) : Prop := forall n, 0 <= draws n < 1.

(** The factor that [random.uniform(0.9, 1.1)] makes of draw number [n]. *)
Definition mutation_factor (draws : nat -> R) (n : nat) : R :=
  9 / 10 + (11 / 10 - 9 / 10) * draws n.

Definition genes_positive (d : Dna) : Prop := Forall (fun kv => 0 < kv.2) d.

(** The child genome [d'] that [mutate] makes of [d] from draw [k] on: the
    same keys in the same order, gene number [i] scaled by the factor of draw
    [k + i]. *)
Definition mutated_from (draws : nat -> R) (k : nat) (d d' : Dna) : Prop :=
  map fst d' = map fst d /\
  forall i key v, d !! i = Some (key, v) ->
    exists f, f = mutation_factor draws (k + i) /\
              9 / 10 <= f <= 11 / 10 /\
              d' !! i = Some (key, v * f) /\
              0 < v * f /\
              v - v / 10 <= v * f <= v + v / 10.

(** What a pass keeps of each agent. *)
Definition kept (p q : Agent) : Prop :=
  dna q = dna p /\ in_world (pos q) /\ acc q = vzero /\
  active q = active p /\ max_energy q = max_energy p.

(** A pass of the predators over the prey store [s]: the store [s'] keeps
    every object, and differs at most by the [active] flag, cleared, of
    objects that the grid refers to (those below [n]). *)
Definition kills (n : nat) (s s' : list Agent) : Prop :=
  length s' = length s /\
  forall i x, s !! i = Some x ->
    s' !! i = Some x \/ ((i < n)%nat /\ s' !! i = Some (set_active x false)).

(** ** Application states *)

(** Every agent of the application has the genes that the code reads. *)
Definition wf_app (app : SimulationApp) : Prop :=
  Forall (fun p : Agent => wf_dna (dna p)) (prey app) /\
  Forall (fun p : Agent => wf_dna (dna p)) (preds app).

(** Both populations are empty once the dead are dropped. *)
Definition extinct (app : SimulationApp) : Prop :=
  List.filter alive (prey app) = [] /\ List.filter alive (preds app) = [].

(** The application with another [state]. *)
Definition with_state (app : SimulationApp) (s : AppState) : SimulationApp :=
  mkApp (food app) (prey app) (preds app) (grid_food app) (grid_prey app)
        (grid_preds app) (stats_history_prey app) (stats_history_pred app)
        (max_prey app) (max_pred app) (camera app) (running app) s.

(** ** Sample objects *)

(** A sequence of draws, all one half. *)
Definition half_draws : nat -> R := fun _ => 1 / 2.

(** A prey on the left edge of the world, heading left. *)
Definition c3_agent : Agent :=
  mkAgent (mkEntity (mkV 0 5) true) (mkV (-1) 0) vzero PREY_DNA 150 400 0.

(** A prey faster than its genome allows, with a pending acceleration. *)
Definition c7_agent : Agent :=
  mkAgent (mkEntity (mkV 10 10) true) (mkV 30 40) (mkV 3 (-4)) PREY_DNA 150 400 0.

(** A well-fed predator. *)
Definition c8_parent : Agent :=
  mkAgent (mkEntity (mkV 100 200) true) (mkV 1 0) vzero PRED_DNA 350 400 0.

(** Four objects of the world, two of them on the same spot. *)
Definition c5_objs : list Vector2 :=
  [mkV 0 0; mkV 2000 2000; mkV 130 5; mkV 130 5].

(** A prey whose sense radius has grown past the cell size, a predator two
    cells away but within that radius, and a food item on the prey's spot. *)
Definition c6_prey : Agent :=
  mkAgent (mkEntity (mkV 119 0) true) vzero vzero
          [("speed"%string, 35 / 10); ("force"%string, 5 / 10); ("sense"%string, 130)]
          150 400 0.

Definition c6_pred : Agent :=
  mkAgent (mkEntity (mkV 241 0) true) vzero vzero PRED_DNA 300 400 0.

Definition c6_food : Food := mkEntity (mkV 119 0) true.

(** An application with one living prey, and one with nobody left. *)
Definition c2_app : SimulationApp :=
  mkApp [] [c3_agent] [] grid_clear grid_clear grid_clear [] [] 0 0
        Camera_init true SIM.

Definition c2_empty : SimulationApp :=
  mkApp [] [] [] grid_clear grid_clear grid_clear [] [] 0 0 Camera_init true SIM.

(** The camera eight frames after the switch to the overview, and an
    application that has it. *)
Definition c9_camera : Camera :=
  Nat.iter 8 Camera_update (toggle_overview Camera_init).

Definition c9_app : SimulationApp :=
  mkApp [] [c3_agent] [] grid_clear grid_clear grid_clear [] [] 0 0
        c9_camera true SIM.

(** A prey just above the reproduction threshold, at rest. *)
Definition c1_prey : Agent :=
  mkAgent (mkEntity (mkV 500 500) true) vzero vzero PREY_DNA (1502 / 10) 400 0.

(** A predator with its initial energy, at rest, and a prey on its spot. *)
Definition c4_pred : Agent :=
  mkAgent (mkEntity (mkV 50 50) true) vzero vzero PRED_DNA 300 400 0.

Definition c4_prey : Agent :=
  mkAgent (mkEntity (mkV 50 50) true) vzero vzero PREY_DNA 150 400 0.

(** ** The rest of the application: camera, seeding, screens, chart *)

Definition PREY_START : nat := 100.
Definition PREDATOR_START : nat := 8.

(** [Camera.apply]: world position to screen position. *)
Definition Camera_apply (c : Camera) (p : Vector2) : Vector2 :=
  vadd (vscale p (zoom_level c)) (offset c).

(** The application with another [running] flag. *)
Definition with_running (app : SimulationApp) (b : bool) : SimulationApp :=
  mkApp (food app) (prey app) (preds app) (grid_food app) (grid_prey app)
        (grid_preds app) (stats_history_prey app) (stats_history_pred app)
        (max_prey app) (max_pred app) (camera app) b (state app).

Section Screens.

Variable draws : nat -> R.

Local Open Scope m_scope.

(** [[Food(randint(0, WORLD_W), randint(0, WORLD_H)) for _ in range(n)]] *)
Fixpoint seed_food (n : nat) : M (list Food) :=
  match n with
  | O => ret []
  | S n' =>
      x <~ randint draws 0 2000 ;;
      y <~ randint draws 0 2000 ;;
      rest <~ seed_food n' ;;
      ret (Food_init x y :: rest)
  end.

(** [[Prey(randint(0, WORLD_W), randint(0, WORLD_H)) for _ in range(n)]], and
    the same with [Predator]. *)
Fixpoint seed_agents (init : R -> R -> option Dna -> M Agent) (n : nat)
    : M (list Agent) :=
  match n with
  | O => ret []
  | S n' =>
      x <~ randint draws 0 2000 ;;
      y <~ randint draws 0 2000 ;;
      a <~ init x y None ;;
      rest <~ seed_agents init n' ;;
      ret (a :: rest)
  end.

(** [SimulationApp.reset_sim]; the start time is left out. *)
Definition reset_sim (app : SimulationApp) : M SimulationApp :=
  f <~ seed_food 400 ;;
  p <~ seed_agents (Prey_init draws) PREY_START ;;
  d <~ seed_agents (Predator_init draws) PREDATOR_START ;;
  ret (mkApp f p d grid_clear grid_clear grid_clear [] [] 0 0
             (camera app) (running app) (state app)).

(** One event of the loop of [screen_intro]. *)
Definition intro_event (app : SimulationApp) (ev : Event) : M SimulationApp :=
  match ev with
  | QUIT => ret (with_running app false)
  | KEYDOWN K_SPACE => app1 <~ reset_sim app ;; ret (with_state app1 SIM)
  | _ => ret app
  end.

(** One event of the loop of [screen_gameover]. *)
Definition gameover_event (app : SimulationApp) (ev : Event) : M SimulationApp :=
  match ev with
  | QUIT => ret (with_running app false)
  | KEYDOWN K_ESCAPE => ret (with_running app false)
  | KEYDOWN K_SPACE => app1 <~ reset_sim app ;; ret (with_state app1 SIM)
  | _ => ret app
  end.

Fixpoint for_events (handler : SimulationApp -> Event -> M SimulationApp)
    (app : SimulationApp) (evs : list Event) : M SimulationApp :=
  match evs with
  | [] => ret app
  | ev :: rest => app1 <~ handler app ev ;; for_events handler app1 rest
  end.

(** [screen_intro] and [screen_gameover], without what they draw. *)
Definition screen_intro (app : SimulationApp) (evs : list Event) : M SimulationApp :=
  for_events intro_event app evs.
Definition screen_gameover (app : SimulationApp) (evs : list Event)
    : M SimulationApp :=
  for_events gameover_event app evs.

(** One turn of the loop of [SimulationApp.run]: the screen of the current
    state handles the events [evs] of this frame; drawing and the clock are
    left out. *)
Definition frame (app : SimulationApp) (evs : list Event) (ticks : Z)
    : M SimulationApp :=
  match state app with
  | INTRO => screen_intro app evs
  | SIM => run_sim_logic draws app evs ticks
  | GAMEOVER => screen_gameover app evs
  end.

End Screens.

(** [max(data)] of Python; [None] is the [ValueError] of an empty sequence. *)
Definition py_max (data : list nat) : option nat :=
  match data with
  | [] => None
  | x :: rest => Some (fold_left Nat.max rest x)
  end.

(** [get_pts] of [draw_hud]: the points of one curve of the chart. *)
Fixpoint get_pts_from (x : nat) (data : list nat) (max_val : nat)
    : list (R * R) :=
  match data with
  | [] => []
  | val :: rest =>
      (20 + (INR x / 200) * 260, 140 - (INR val / INR max_val) * 60)
      :: get_pts_from (S x) rest max_val
  end.

Definition get_pts (data : list nat) (max_val : nat) : list (R * R) :=
  get_pts_from 0 data max_val.

(** The chart of [draw_hud]: nothing when the prey history has at most two
    samples, else the two curves scaled by the largest sample, at least 1. *)
Definition chart (app : SimulationApp)
    : option (option (list (R * R) * list (R * R))) :=
  if (2 <? length (stats_history_prey app))%nat then
    mp ← py_max (stats_history_prey app);
    md ← py_max (stats_history_pred app);
    let max_val := Nat.max (Nat.max mp md) 1 in
    Some (Some (get_pts (stats_history_prey app) max_val,
                get_pts (stats_history_pred app) max_val))
  else Some None.

(** The rectangle of the chart on the screen. *)
Definition in_graph (pt : R * R) : Prop :=
  20 <= pt.1 <= 280 /\ 80 <= pt.2 <= 140.

(** Every position of the populations is in the world. *)
Definition app_in_world (app : SimulationApp) : Prop :=
  Forall (fun a : Agent => in_world (pos a)) (prey app) /\
  Forall (fun a : Agent => in_world (pos a)) (preds app).

(** What the constructors give an agent, whatever the draws. *)
Definition fresh (d : Dna) (e : R) (a : Agent) : Prop :=
  active a = true /\ in_world (pos a) /\ dna a = d /\ energy a = e /\
  max_energy a = 400 /\ acc a = vzero /\
  -1 <= vx (vel a) <= 1 /\ -1 <= vy (vel a) <= 1.

(** An agent that the simulation can go on with. *)
Definition sound (a : Agent) : Prop := wf_dna (dna a) /\ in_world (pos a).

(** The zoom and its target are positive. *)
Definition cam_ok (c : Camera) : Prop := 0 < zoom_level c /\ 0 < target_zoom c.

(** What every frame keeps: well-formed genomes, positions in the world, a
    usable camera. *)
Definition app_ok (app : SimulationApp) : Prop :=
  wf_app app /\ app_in_world app /\ cam_ok (camera app).

Section Run.

Variable draws : nat -> R.

Local Open Scope m_scope.

(** [while self.running:] of [SimulationApp.run], over the frames that the
    environment supplies (the events and the clock reading of each). *)
Fixpoint run_frames (app : SimulationApp) (frames : list (list Event * Z))
    : M SimulationApp :=
  match frames with
  | [] => ret app
  | fr :: rest =>
      if running app then
        app1 <~ frame draws app fr.1 fr.2 ;;
        run_frames app1 rest
      else ret app
  end.

End Run.

(** A freshly seeded application. *)
Definition seeded (app : SimulationApp) : Prop :=
  length (food app) = 400%nat /\ length (prey app) = 100%nat /\
  length (preds app) = 8%nat /\
  stats_history_prey app = [] /\ stats_history_pred app = [] /\
  max_prey app = 0%nat /\ max_pred app = 0%nat.

(** The populations and the statistics are those of [app]. *)
Definition same_world (app app' : SimulationApp) : Prop :=
  food app' = food app /\ prey app' = prey app /\ preds app' = preds app /\
  stats_history_prey app' = stats_history_prey app /\
  stats_history_pred app' = stats_history_pred app /\
  max_prey app' = max_prey app /\ max_pred app' = max_pred app.


(** The two histories have one length, at most the 200 of their deques. *)
Definition stats_ok (app : SimulationApp) : Prop :=
  length (stats_history_prey app) = length (stats_history_pred app) /\
  (length (stats_history_prey app) <= 200)%nat.

(** An application whose histories hold three samples. *)
Definition hud_app : SimulationApp :=
  mkApp [] [] [] grid_clear grid_clear grid_clear [100; 104; 97]%nat
        [8; 8; 9]%nat 104 9 Camera_init true SIM.

(** [SimulationApp.__init__]: the application when [run] starts.  The
    populations, created by [reset_sim] only, are shown empty. *)
Definition SimulationApp_init : SimulationApp :=
  mkApp [] [] [] grid_clear grid_clear grid_clear [] [] 0 0 Camera_init true
        INTRO.

(** Kinds of events. *)
Definition is_click (b : Z) (ev : Event) : bool :=
  match ev with MOUSEBUTTONDOWN b' _ => (b' =? b)%Z | _ => false end.
Definition is_quit (ev : Event) : bool :=
  match ev with QUIT => true | _ => false end.
Definition is_escape (ev : Event) : bool :=
  match ev with KEYDOWN K_ESCAPE => true | _ => false end.
Definition count_clicks (b : Z) (evs : list Event) : nat :=
  length (List.filter (is_click b) evs).

(** A predator as a left click creates it. *)
Definition spawned_predator (p : Agent) : Prop :=
  active p = true /\ dna p = PRED_DNA /\ energy p = 300 /\ acc p = vzero.

(** * Properties *)

(** ** Comparisons *)

Lemma Rltb_true x y : Rltb x y = true <-> x < y.
Proof. unfold Rltb. destruct (Rlt_dec x y); split; intros; try lra; congruence. Qed.

Lemma Rltb_false x y : Rltb x y = false <-> y <= x.
Proof. unfold Rltb. destruct (Rlt_dec x y); split; intros; try lra; congruence. Qed.

Lemma Rgtb_true x y : Rgtb x y = true <-> x > y.
Proof. unfold Rgtb. rewrite Rltb_true. lra. Qed.

Lemma Rgtb_false x y : Rgtb x y = false <-> x <= y.
Proof. unfold Rgtb. rewrite Rltb_false. lra. Qed.

Lemma Reqb_true x y : Reqb x y = true <-> x = y.
Proof. unfold Reqb. destruct (Req_dec_T x y); split; intros; try lra; congruence. Qed.

Lemma Reqb_false x y : Reqb x y = false <-> x <> y.
Proof. unfold Reqb. destruct (Req_dec_T x y); split; intros; try lra; congruence. Qed.

(** ** Vector lengths *)

Lemma length_squared_nonneg v : 0 <= length_squared v.
Proof. unfold length_squared. nra. Qed.

Lemma vlength_nonneg v : 0 <= vlength v.
Proof. apply sqrt_pos. Qed.

Lemma vlength_square v : vlength v * vlength v = length_squared v.
Proof. apply sqrt_sqrt, length_squared_nonneg. Qed.

Lemma length_squared_vscale v k :
  length_squared (vscale v k) = (k * k) * length_squared v.
Proof. unfold length_squared, vscale. simpl. ring. Qed.

Lemma vlength_vscale v k : 0 <= k -> vlength (vscale v k) = k * vlength v.
Proof.
  intros Hk. unfold vlength. rewrite length_squared_vscale.
  rewrite sqrt_mult by (try apply length_squared_nonneg; nra).
  now rewrite sqrt_square.
Qed.

Lemma vlength_zero : vlength vzero = 0.
Proof.
  unfold vlength, length_squared, vzero. simpl.
  replace (0 * 0 + 0 * 0) with 0 by ring. apply sqrt_0.
Qed.

(** A vector whose squared length is the square of [l] has length [l]. *)
Lemma vlength_of_square v l : 0 <= l -> length_squared v = l * l -> vlength v = l.
Proof. intros Hl E. unfold vlength. rewrite E. now apply sqrt_square. Qed.

Lemma scale_to_length_length v l w :
  0 <= l -> scale_to_length v l = Some w -> vlength w = l.
Proof.
  unfold scale_to_length. intros Hl.
  destruct (Reqb (vlength v) 0) eqn:E; [discriminate|].
  apply Reqb_false in E. intros [= <-].
  pose proof (vlength_nonneg v).
  rewrite vlength_vscale.
  - field. exact E.
  - apply Rmult_le_pos; [exact Hl|]. left. apply Rinv_0_lt_compat. lra.
Qed.

Lemma scale_to_length_some v l :
  vlength v <> 0 -> scale_to_length v l = Some (vscale v (l / vlength v)).
Proof.
  intros H. unfold scale_to_length.
  apply Reqb_false in H. now rewrite H.
Qed.

(** ** The wrap of [edges] *)

Lemma wrap_axis_range x w : 0 <= w -> 0 <= wrap_axis x w <= w.
Proof.
  intros Hw. unfold wrap_axis.
  destruct (Rgtb x w) eqn:E1.
  - replace (Rltb 0 0) with false; [lra|]. symmetry. apply Rltb_false. lra.
  - apply Rgtb_false in E1. destruct (Rltb x 0) eqn:E2; [lra|].
    apply Rltb_false in E2. lra.
Qed.

Lemma wrap_axis_high x w : 0 <= w -> w < x -> wrap_axis x w = 0.
Proof.
  intros Hw H. unfold wrap_axis.
  replace (Rgtb x w) with true by (symmetry; apply Rgtb_true; lra).
  replace (Rltb 0 0) with false; [reflexivity|]. symmetry. apply Rltb_false. lra.
Qed.

Lemma wrap_axis_low x w : 0 <= w -> x < 0 -> wrap_axis x w = w.
Proof.
  intros Hw H. unfold wrap_axis.
  replace (Rgtb x w) with false by (symmetry; apply Rgtb_false; lra).
  replace (Rltb x 0) with true; [reflexivity|]. symmetry. apply Rltb_true. lra.
Qed.

Lemma wrap_axis_inside x w : 0 <= x <= w -> wrap_axis x w = x.
Proof.
  intros H. unfold wrap_axis.
  replace (Rgtb x w) with false by (symmetry; apply Rgtb_false; lra).
  replace (Rltb x 0) with false; [reflexivity|]. symmetry. apply Rltb_false. lra.
Qed.

Lemma edges_in_world a : in_world (pos (edges a)).
Proof.
  unfold in_world, edges. simpl.
  split; apply wrap_axis_range; unfold WORLD_W, WORLD_H; lra.
Qed.

(** ** [update_physics] *)

(** The velocity that [update_physics] settles on. *)
Lemma update_physics_inv a a' :
  update_physics a = Some a' ->
  exists speed v2,
    dna_get "speed" (dna a) = Some speed /\
    (if Rgtb (vlength (vadd (vel a) (acc a))) speed
     then scale_to_length (vadd (vel a) (acc a)) speed
     else Some (vadd (vel a) (acc a))) = Some v2 /\
    a' = edges (set_acc (set_pos (set_vel a v2) (vadd (pos a) v2))
                        (vscale (acc a) 0)).
Proof.
  unfold update_physics. intros H.
  destruct (dna_get "speed" (dna a)) as [speed|]; [|discriminate]. simpl in H.
  destruct (if Rgtb _ _ then _ else _) as [v2|] eqn:E; [|discriminate].
  simpl in H. injection H as <-. exists speed, v2. auto.
Qed.

Lemma update_physics_total a speed :
  dna_get "speed" (dna a) = Some speed -> 0 <= speed ->
  exists a', update_physics a = Some a'.
Proof.
  intros Hs Hpos. unfold update_physics. rewrite Hs. simpl.
  destruct (Rgtb (vlength (vadd (vel a) (acc a))) speed) eqn:E.
  - apply Rgtb_true in E. rewrite scale_to_length_some by lra. simpl. eauto.
  - simpl. eauto.
Qed.

(** What [update_physics] leaves in each field. *)
Lemma update_physics_spec a speed :
  dna_get "speed" (dna a) = Some speed -> 0 <= speed ->
  exists a',
    update_physics a = Some a' /\
    vlength (vel a') <= speed /\
    (vlength (vadd (vel a) (acc a)) <= speed -> vel a' = vadd (vel a) (acc a)) /\
    acc a' = vzero /\
    pos a' = mkV (wrap_axis (vx (pos a) + vx (vel a')) WORLD_W)
                 (wrap_axis (vy (pos a) + vy (vel a')) WORLD_H) /\
    active a' = active a /\ dna a' = dna a /\ energy a' = energy a /\
    max_energy a' = max_energy a /\ wander_theta a' = wander_theta a.
Proof.
  intros Hs Hpos.
  destruct (update_physics_total a speed Hs Hpos) as [a' Ha'].
  exists a'. split; [exact Ha'|].
  apply update_physics_inv in Ha' as (speed' & v2 & Hs' & Hv & ->).
  rewrite Hs in Hs'. injection Hs' as <-.
  assert (Hacc : vscale (acc a) 0 = vzero).
  { unfold vscale, vzero. f_equal; ring. }
  unfold edges; simpl. rewrite Hacc.
  destruct (Rgtb (vlength (vadd (vel a) (acc a))) speed) eqn:E.
  - apply Rgtb_true in E. repeat split; try reflexivity.
    + apply scale_to_length_length in Hv; lra.
    + intros H. lra.
  - apply Rgtb_false in E. injection Hv as <-. repeat split; try reflexivity; lra.
Qed.

(** *** C3 *)


(** A prey that stands on the left edge and moves one unit to the left. *)
Lemma c3_agent_moves :
  exists a',
    update_physics c3_agent = Some a' /\ vx (pos a') = WORLD_W.
Proof.
  destruct (update_physics_spec c3_agent (35 / 10))
    as (a' & Ha' & _ & Hv & _ & Hp & _); [reflexivity | lra |].
  exists a'. split; [exact Ha'|].
  assert (Hl : vlength (vadd (vel c3_agent) (acc c3_agent)) = 1).
  { apply vlength_of_square; [lra|].
    unfold length_squared, vadd, c3_agent, vzero. simpl. ring. }
  rewrite Hp, Hv by lra. simpl.
  apply wrap_axis_low; unfold WORLD_W; lra.
Qed.



(** *** C7 *)



(** ** The monad *)

Lemma bind_some {A B} (m : M A) (f : A -> M B) k x k' :
  m k = Some (x, k') -> bind m f k = f x k'.
Proof. unfold bind. now intros ->. Qed.

Lemma bind_inv {A B} (m : M A) (f : A -> M B) k r :
  bind m f k = Some r -> exists x k', m k = Some (x, k') /\ f x k' = Some r.
Proof.
  unfold bind. destruct (m k) as [[x k']|]; [|discriminate]. eauto.
Qed.

Lemma lift_inv {A} (o : option A) k r :
  lift o k = Some r -> o = Some r.1 /\ r.2 = k.
Proof. unfold lift. destruct o; [|discriminate]. now intros [= <-]. Qed.

Lemma uniform_eq draws a b k :
  uniform draws a b k = Some (a + (b - a) * draws k, S k).
Proof. reflexivity. Qed.

(** ** Mutation *)

Lemma mutation_factor_range draws n :
  unit_draws draws -> 9 / 10 <= mutation_factor draws n <= 11 / 10.
Proof. intros H. specialize (H n). unfold mutation_factor. lra. Qed.

(** [mutate] never faults and uses one draw per gene, in the order of the
    genes. *)
Lemma mutate_spec draws d k :
  exists d',
    mutate draws d k = Some (d', (k + length d)%nat) /\
    map fst d' = map fst d /\
    forall i key v, d !! i = Some (key, v) ->
      d' !! i = Some (key, v * mutation_factor draws (k + i)).
Proof.
  revert k. induction d as [|[key v] rest IH]; intros k.
  - exists []. simpl. unfold ret. rewrite Nat.add_0_r.
    repeat split. intros i key v H. destruct i; discriminate.
  - destruct (IH (S k)) as (rest' & Hm & Hk & Hv).
    exists ((key, v * mutation_factor draws k) :: rest').
    split; [|split].
    + simpl. unfold bind at 1. rewrite uniform_eq.
      unfold bind at 1. rewrite Hm. unfold ret, mutation_factor.
      do 2 f_equal. simpl. lia.
    + simpl. now rewrite Hk.
    + intros [|i] key' v' H; simpl in *.
      * injection H as <- <-. now rewrite Nat.add_0_r.
      * apply Hv in H. replace (k + S i)%nat with (S k + i)%nat by lia. exact H.
Qed.

Lemma mutate_nonempty draws d k d' k' :
  mutate draws d k = Some (d', k') -> d <> [] -> d' <> [].
Proof.
  intros H Hd. destruct (mutate_spec draws d k) as (d'' & Hm & Hk & _).
  rewrite H in Hm. injection Hm as <- _.
  destruct d; [congruence|]. destruct d'; [discriminate|congruence].
Qed.

Lemma Agent_init_eq draws x y d k :
  Agent_init draws x y d k =
  Some (mkAgent (Entity_init x y)
                (mkV (-1 + (1 - -1) * draws k) (-1 + (1 - -1) * draws (S k)))
                vzero d 150 400 (0 + (100 - 0) * draws (S (S k))),
        S (S (S k))).
Proof. reflexivity. Qed.

(** What [reproduce] does to an agent above the threshold. *)
Lemma reproduce_prey_above draws p k :
  energy p > REPRO_COST_PREY + 50 -> dna p <> [] ->
  exists new_dna child,
    mutate draws (dna p) k = Some (new_dna, (k + length (dna p))%nat) /\
    Prey_init draws (vx (pos p)) (vy (pos p)) (Some new_dna) (k + length (dna p))%nat
      = Some (child, (k + length (dna p) + 3)%nat) /\
    reproduce draws (Prey_init draws) REPRO_COST_PREY p k
      = Some ((set_energy p (energy p - REPRO_COST_PREY), [child]),
              (k + length (dna p) + 3)%nat) /\
    dna child = new_dna /\ pos child = pos p /\ active child = true /\
    acc child = vzero /\ max_energy child = 400 /\ energy child = 150.
Proof.
  intros He Hd.
  destruct (mutate_spec draws (dna p) k) as (d' & Hm & Hk & Hv).
  assert (Hd' : d' <> []) by (eapply mutate_nonempty; eauto).
  assert (Hor : forall dflt, dna_or (Some d') dflt = d').
  { intros dflt. destruct d'; [congruence|reflexivity]. }
  replace (k + length (dna p) + 3)%nat with (S (S (S (k + length (dna p)))))
    by lia.
  exists d'. eexists. split; [exact Hm|].
  unfold reproduce.
  replace (Rgtb (energy p) (REPRO_COST_PREY + 50)) with true
    by (symmetry; apply Rgtb_true; lra).
  simpl. unfold bind at 1. rewrite Hm. unfold bind at 1.
  unfold Prey_init, ret. rewrite !Agent_init_eq, !Hor.
  split; [reflexivity|]. split; [reflexivity|].
  simpl. destruct (pos p). repeat split; reflexivity.
Qed.

Lemma reproduce_pred_above draws p k :
  energy p > REPRO_COST_PRED + 50 -> dna p <> [] ->
  exists new_dna child,
    mutate draws (dna p) k = Some (new_dna, (k + length (dna p))%nat) /\
    Predator_init draws (vx (pos p)) (vy (pos p)) (Some new_dna)
                  (k + length (dna p))%nat
      = Some (child, (k + length (dna p) + 3)%nat) /\
    reproduce draws (Predator_init draws) REPRO_COST_PRED p k
      = Some ((set_energy p (energy p - REPRO_COST_PRED), [child]),
              (k + length (dna p) + 3)%nat) /\
    dna child = new_dna /\ pos child = pos p /\ active child = true /\
    acc child = vzero /\ max_energy child = 400 /\ energy child = 300.
Proof.
  intros He Hd.
  destruct (mutate_spec draws (dna p) k) as (d' & Hm & Hk & Hv).
  assert (Hd' : d' <> []) by (eapply mutate_nonempty; eauto).
  assert (Hor : forall dflt, dna_or (Some d') dflt = d').
  { intros dflt. destruct d'; [congruence|reflexivity]. }
  replace (k + length (dna p) + 3)%nat with (S (S (S (k + length (dna p)))))
    by lia.
  exists d'. eexists. split; [exact Hm|].
  unfold reproduce.
  replace (Rgtb (energy p) (REPRO_COST_PRED + 50)) with true
    by (symmetry; apply Rgtb_true; lra).
  simpl. unfold bind at 1. rewrite Hm. unfold bind at 1.
  unfold Predator_init, bind, ret. rewrite !Agent_init_eq, !Hor.
  split; [reflexivity|]. split; [reflexivity|].
  simpl. destruct (pos p). repeat split; reflexivity.
Qed.

Lemma reproduce_below draws init cost p k :
  energy p <= cost + 50 -> reproduce draws init cost p k = Some ((p, []), k).
Proof.
  intros H. unfold reproduce.
  replace (Rgtb (energy p) (cost + 50)) with false
    by (symmetry; apply Rgtb_false; lra).
  reflexivity.
Qed.

(** An agent that [update_physics] accepted has a speed gene. *)
Lemma update_physics_has_speed a a' :
  update_physics a = Some a' -> is_Some (dna_get "speed" (dna a')).
Proof.
  intros H. apply update_physics_inv in H as (speed & v2 & Hs & _ & ->).
  simpl. rewrite Hs. eauto.
Qed.

Lemma has_gene_nonempty key d : is_Some (dna_get key d) -> d <> [].
Proof. intros [v Hv] ->. discriminate. Qed.

Lemma mutated_from_spec draws k d d' :
  unit_draws draws -> genes_positive d ->
  mutate draws d k = Some (d', (k + length d)%nat) ->
  mutated_from draws k d d'.
Proof.
  intros Hu Hp Hm.
  destruct (mutate_spec draws d k) as (d'' & Hm' & Hk & Hv).
  rewrite Hm in Hm'. injection Hm' as <-.
  split; [exact Hk|].
  intros i key v Hi.
  pose proof (mutation_factor_range draws (k + i) Hu) as Hf.
  assert (Hpos : 0 < v).
  { unfold genes_positive in Hp. rewrite Forall_lookup in Hp.
    apply (Hp i (key, v) Hi). }
  exists (mutation_factor draws (k + i)).
  split; [reflexivity|]. split; [exact Hf|]. split; [now apply Hv|].
  split; nra.
Qed.

(** *** C8 *)

(** C8.  An agent above the reproduction threshold, whose genes are all
    positive and which has a speed gene (as every agent that has moved),
    gets one child; the child's genome has the parent's keys in the parent's
    order, each value is the parent's value times a factor of [[0.9, 1.1]]
    that comes from a draw of its own, hence lies within a tenth of the
    parent's value, and is positive.  The same for prey and predators. *)
Theorem C8_offspring_genome draws p k :
  unit_draws draws -> genes_positive (dna p) ->
  is_Some (dna_get "speed" (dna p)) ->
  (energy p > REPRO_COST_PREY + 50 ->
   exists child k',
     reproduce draws (Prey_init draws) REPRO_COST_PREY p k
       = Some ((set_energy p (energy p - REPRO_COST_PREY), [child]), k') /\
     mutated_from draws k (dna p) (dna child) /\
     genes_positive (dna child)) /\
  (energy p > REPRO_COST_PRED + 50 ->
   exists child k',
     reproduce draws (Predator_init draws) REPRO_COST_PRED p k
       = Some ((set_energy p (energy p - REPRO_COST_PRED), [child]), k') /\
     mutated_from draws k (dna p) (dna child) /\
     genes_positive (dna child)).
Proof.
  intros Hu Hp Hs.
  assert (Hd : dna p <> []) by (eapply has_gene_nonempty; eauto).
  assert (Hpos : forall d', mutated_from draws k (dna p) d' -> genes_positive d').
  { intros d' [Hk Hv]. unfold genes_positive. rewrite Forall_lookup.
    intros i [key' v'] Hi.
    assert (Hlen : (i < length (dna p))%nat).
    { pose proof (lookup_lt_Some _ _ _ Hi) as Hlt.
      rewrite <- (length_map fst), <- Hk, length_map. exact Hlt. }
    destruct (lookup_lt_is_Some_2 _ _ Hlen) as [[key v] Hkv].
    destruct (Hv i key v Hkv) as (f & _ & _ & Hc & Hgt & _).
    pose proof (eq_trans (eq_sym Hi) Hc) as E. injection E as -> ->. exact Hgt. }
  split; intros He.
  - destruct (reproduce_prey_above draws p k He Hd)
      as (nd & child & Hm & _ & Hr & Hdna & _).
    exists child, (k + length (dna p) + 3)%nat. split; [exact Hr|].
    assert (Hmf : mutated_from draws k (dna p) (dna child)).
    { rewrite Hdna. now apply mutated_from_spec. }
    split; [exact Hmf | now apply Hpos].
  - destruct (reproduce_pred_above draws p k He Hd)
      as (nd & child & Hm & _ & Hr & Hdna & _).
    exists child, (k + length (dna p) + 3)%nat. split; [exact Hr|].
    assert (Hmf : mutated_from draws k (dna p) (dna child)).
    { rewrite Hdna. now apply mutated_from_spec. }
    split; [exact Hmf | now apply Hpos].
Qed.

Lemma half_draws_unit : unit_draws half_draws.
Proof. intros n. unfold half_draws. lra. Qed.

Lemma c8_parent_positive : genes_positive (dna c8_parent).
Proof.
  unfold genes_positive, c8_parent, PRED_DNA. simpl.
  repeat constructor; simpl; lra.
Qed.

Lemma C8_witness :
  (energy c8_parent > REPRO_COST_PREY + 50 ->
   exists child k',
     reproduce half_draws (Prey_init half_draws) REPRO_COST_PREY c8_parent 0%nat
       = Some ((set_energy c8_parent (energy c8_parent - REPRO_COST_PREY),
                [child]), k') /\
     mutated_from half_draws 0%nat (dna c8_parent) (dna child) /\
     genes_positive (dna child)) /\
  (energy c8_parent > REPRO_COST_PRED + 50 ->
   exists child k',
     reproduce half_draws (Predator_init half_draws) REPRO_COST_PRED c8_parent 0%nat
       = Some ((set_energy c8_parent (energy c8_parent - REPRO_COST_PRED),
                [child]), k') /\
     mutated_from half_draws 0%nat (dna c8_parent) (dna child) /\
     genes_positive (dna child)).
Proof.
  apply (C8_offspring_genome half_draws c8_parent 0%nat).
  - exact half_draws_unit.
  - exact c8_parent_positive.
  - simpl. eauto.
Defined.

(** ** The spatial grid *)

Lemma bucket_lookup (cells : Cells) c :
  match cells !! c with Some b => b | None => [] end = bucket cells c.
Proof. unfold bucket. now destruct (cells !! c). Qed.

Lemma grid_add_bucket (cells : Cells) r p c :
  bucket (grid_add cells r p) c
  = bucket cells c ++ (if decide (cell_of p = c) then [r] else []).
Proof.
  unfold grid_add, bucket.
  destruct (decide (cell_of p = c)) as [<-|Hne].
  - destruct (cells !! cell_of p) as [b|] eqn:E.
    + rewrite lookup_insert_eq, E. reflexivity.
    + rewrite !lookup_insert_eq. reflexivity.
  - rewrite app_nil_r. destruct (cells !! cell_of p) as [b|] eqn:E.
    + now rewrite lookup_insert_ne.
    + now rewrite !lookup_insert_ne.
Qed.

Lemma grid_register_bucket (cells : Cells) i objs c :
  bucket (grid_register cells i objs) c = bucket cells c ++ cell_members c i objs.
Proof.
  revert cells i. induction objs as [|p rest IH]; intros cells i; simpl.
  - now rewrite app_nil_r.
  - rewrite IH, grid_add_bucket, <- app_assoc. reflexivity.
Qed.

Lemma build_grid_bucket objs c : bucket (build_grid objs) c = cell_members c 0 objs.
Proof.
  unfold build_grid. rewrite grid_register_bucket. reflexivity.
Qed.

Lemma get_nearby_buckets (cells : Cells) p r :
  get_nearby cells p r
  = flat_map (fun x => flat_map (fun y => bucket cells (x, y))
                         (zrange ((cell_of p).2 - r) ((cell_of p).2 + r + 1)))
             (zrange ((cell_of p).1 - r) ((cell_of p).1 + r + 1)).
Proof.
  unfold get_nearby. destruct (cell_of p) as [cx cy]. simpl.
  apply flat_map_ext. intros x. apply flat_map_ext. intros y.
  apply bucket_lookup.
Qed.

Lemma elem_of_zrange a b k : k ∈ zrange a b <-> (a <= k < b)%Z.
Proof. unfold zrange. rewrite elem_of_seqZ. lia. Qed.

Lemma NoDup_zrange a b : NoDup (zrange a b).
Proof. apply NoDup_seqZ. Qed.

Lemma in_square_ranges center c r :
  in_square center c r <->
  c.1 ∈ zrange (center.1 - r) (center.1 + r + 1) /\
  c.2 ∈ zrange (center.2 - r) (center.2 + r + 1).
Proof. unfold in_square. rewrite !elem_of_zrange. lia. Qed.

(** Every query returns what the buckets of the square hold, and nothing
    else. *)
Lemma get_nearby_elem (cells : Cells) p r (ref : Ref) :
  ref ∈ get_nearby cells p r <->
  exists c, in_square (cell_of p) c r /\ ref ∈ bucket cells c.
Proof.
  rewrite get_nearby_buckets, list_elem_of_In, in_flat_map. split.
  - intros (x & Hx & H). apply in_flat_map in H as (y & Hy & H).
    rewrite <- list_elem_of_In in Hx. rewrite <- list_elem_of_In in Hy.
    rewrite <- list_elem_of_In in H.
    exists (x, y). rewrite in_square_ranges. auto.
  - intros ([x y] & Hsq & H). apply in_square_ranges in Hsq as [Hx Hy].
    simpl in *. exists x. rewrite <- list_elem_of_In. split; [exact Hx|].
    apply in_flat_map. exists y. rewrite <- !list_elem_of_In. auto.
Qed.

Lemma flat_map_app_perm {A B} (f g : A -> list B) l :
  flat_map (fun x => f x ++ g x) l ≡ₚ flat_map f l ++ flat_map g l.
Proof.
  induction l as [|a l IH]; simpl; [reflexivity|].
  rewrite IH. rewrite <- !app_assoc. apply Permutation_app_head.
  rewrite !app_assoc. apply Permutation_app_tail. apply Permutation_app_comm.
Qed.

Lemma flat_map_perm_ext {A B} (f g : A -> list B) l :
  (forall x, f x ≡ₚ g x) -> flat_map f l ≡ₚ flat_map g l.
Proof.
  intros H. induction l as [|a l IH]; simpl; [reflexivity|].
  now rewrite (H a), IH.
Qed.

(** A reference filed under one key is met once by a loop over distinct
    keys, when the key is among them. *)
Lemma flat_map_single {K} `{EqDecision K} (k : K) (i : nat) (ks : list K) :
  NoDup ks ->
  flat_map (fun x => if decide (k = x) then [i] else []) ks
  = if decide (k ∈ ks) then [i] else [].
Proof.
  induction 1 as [|x ks Hx Hnd IH]; simpl.
  - destruct (decide (k ∈ [])) as [H|_]; [inversion H|reflexivity].
  - rewrite IH. destruct (decide (k = x)) as [->|Hne].
    + destruct (decide (x ∈ ks)); [contradiction|].
      destruct (decide (x ∈ x :: ks)) as [_|H]; [reflexivity|].
      exfalso. apply H. left.
    + destruct (decide (k ∈ ks)) as [Hin|Hout];
        destruct (decide (k ∈ x :: ks)) as [Hin'|Hout']; try reflexivity.
      * exfalso. apply Hout'. now right.
      * exfalso. apply Hout. inversion Hin'; [congruence|assumption].
Qed.

Lemma flat_map_nil {A B} (l : list A) : flat_map (fun _ => @nil B) l = [].
Proof. induction l; simpl; auto. Qed.

Lemma square_single (p : Vector2) (i : nat) center r :
  flat_map (fun x => flat_map (fun y =>
      if decide (cell_of p = (x, y)) then [i] else [])
      (zrange (center.2 - r) (center.2 + r + 1)))
    (zrange (center.1 - r) (center.1 + r + 1))
  = if decide (in_square center (cell_of p) r) then [i] else [].
Proof.
  destruct (cell_of p) as [a b] eqn:Ec.
  transitivity
    (flat_map (fun x => if decide (a = x)
                        then (if decide (b ∈ zrange (center.2 - r) (center.2 + r + 1))
                              then [i] else [])
                        else [])
              (zrange (center.1 - r) (center.1 + r + 1))).
  - apply flat_map_ext. intros x.
    destruct (decide (a = x)) as [->|Hne].
    + rewrite <- (flat_map_single b i) by apply NoDup_zrange.
      apply flat_map_ext. intros y.
      repeat case_decide; congruence.
    + rewrite (flat_map_ext _ (fun _ => [])); [apply flat_map_nil|].
      intros y. case_decide; congruence.
  - destruct (decide (b ∈ zrange (center.2 - r) (center.2 + r + 1))) as [Hb|Hb].
    + rewrite (flat_map_single a i) by apply NoDup_zrange.
      destruct (decide (a ∈ zrange (center.1 - r) (center.1 + r + 1))) as [Ha|Ha];
        destruct (decide (in_square center (a, b) r)) as [Hs|Hs]; try reflexivity.
      * exfalso. apply Hs. apply in_square_ranges. auto.
      * exfalso. apply Ha. apply in_square_ranges in Hs. apply Hs.
    + transitivity (flat_map (fun _ : Z => @nil nat)
                      (zrange (center.1 - r) (center.1 + r + 1))).
      * apply flat_map_ext. intros x. now destruct (decide (a = x)).
      * rewrite flat_map_nil.
        destruct (decide (in_square center (a, b) r)) as [Hs|Hs]; [|reflexivity].
        exfalso. apply Hb. apply in_square_ranges in Hs. apply Hs.
Qed.

(** The query over a grid that holds the objects [objs], numbered from [i]:
    the objects of the square, each once. *)
Lemma get_nearby_registered objs i p r :
  get_nearby (grid_register grid_clear i objs) p r
  ≡ₚ square_members (cell_of p) r i objs.
Proof.
  rewrite get_nearby_buckets.
  transitivity
    (flat_map (fun x => flat_map (fun y => cell_members (x, y) i objs)
                          (zrange ((cell_of p).2 - r) ((cell_of p).2 + r + 1)))
              (zrange ((cell_of p).1 - r) ((cell_of p).1 + r + 1))).
  { apply Permutation_refl'. apply flat_map_ext. intros x.
    apply flat_map_ext. intros y. rewrite grid_register_bucket. reflexivity. }
  set (c := cell_of p). clearbody c. revert i.
  induction objs as [|q rest IH]; intros i; cbn [cell_members square_members].
  - rewrite (flat_map_ext _ (fun _ => [])); [now rewrite flat_map_nil|].
    intros x. apply flat_map_nil.
  - rewrite <- (IH (S i)), <- (square_single q i c r).
    rewrite <- flat_map_app_perm.
    apply flat_map_perm_ext. intros x. apply flat_map_app_perm.
Qed.

Lemma square_members_elem center r i objs (j : Ref) :
  j ∈ square_members center r i objs <->
  exists q, objs !! (j - i)%nat = Some q /\ (i <= j)%nat /\
            in_square center (cell_of q) r.
Proof.
  revert i. induction objs as [|p rest IH]; intros i; simpl.
  - split; [intros H; inversion H|intros (q & H & _); discriminate].
  - rewrite elem_of_app, IH. split.
    + intros [H|(q & Hq & Hle & Hs)].
      * destruct (decide (in_square center (cell_of p) r)); [|inversion H].
        apply list_elem_of_singleton in H as ->.
        exists p. rewrite Nat.sub_diag. auto.
      * exists q. replace (j - i)%nat with (S (j - S i)) by lia. auto with lia.
    + intros (q & Hq & Hle & Hs).
      destruct (decide (j = i)) as [->|Hne].
      * rewrite Nat.sub_diag in Hq. injection Hq as ->. left.
        destruct (decide (in_square center (cell_of q) r)); [|contradiction].
        apply list_elem_of_singleton. reflexivity.
      * right. exists q. replace (j - i)%nat with (S (j - S i)) in Hq by lia.
        auto with lia.
Qed.

Lemma square_members_all center r i objs :
  Forall (fun q => in_square center (cell_of q) r) objs ->
  square_members center r i objs = seq i (length objs).
Proof.
  intros H. revert i. induction H as [|q rest Hq _ IH]; intros i; simpl.
  - reflexivity.
  - destruct (decide (in_square center (cell_of q) r)); [|contradiction].
    simpl. now rewrite IH.
Qed.

(** *** Cells of the world *)

Lemma floordiv_world x :
  0 <= x <= 2000 -> (0 <= floordiv x CELL_SIZE <= 16)%Z.
Proof.
  intros Hx. unfold floordiv, CELL_SIZE.
  destruct (base_Int_part (x / 120)) as [H1 H2].
  assert (0 <= x / 120 < 17) by lra.
  split.
  - apply Z.lt_succ_r. apply lt_IZR. rewrite succ_IZR. lra.
  - apply Z.lt_succ_r. apply lt_IZR. change (Z.succ 16) with 17%Z. lra.
Qed.

Lemma cell_of_world p :
  in_world p -> (0 <= (cell_of p).1 <= 16 /\ 0 <= (cell_of p).2 <= 16)%Z.
Proof.
  unfold in_world, WORLD_W, WORLD_H. intros [Hx Hy].
  unfold cell_of. simpl. split; now apply floordiv_world.
Qed.

Lemma world_in_square p q r :
  in_world p -> in_world q -> (16 <= r)%Z -> in_square (cell_of p) (cell_of q) r.
Proof.
  intros Hp Hq Hr. apply cell_of_world in Hp, Hq. unfold in_square. lia.
Qed.

(** *** C5 *)

(** C5.  A grid that was cleared and then given the [N] objects of a store,
    all in the world, answers a query from a point of the world with a radius
    of at least 16 cells (the world spans the cells 0 to 16 on each axis) with
    the [N] references, each exactly once.  Whatever the grid, the point and
    the radius, a query returns the references of the buckets whose cell lies
    in the square of side [2 * r + 1] around the cell of the point, and only
    those: the test is on cells, no distance is measured. *)
Theorem C5_grid_roundtrip objs p r :
  Forall in_world objs -> in_world p -> (16 <= r)%Z ->
  get_nearby (build_grid objs) p r ≡ₚ seq 0 (length objs) /\
  NoDup (get_nearby (build_grid objs) p r) /\
  (forall (cells : Cells) q r' (ref : Ref),
     ref ∈ get_nearby cells q r' <->
     exists c, in_square (cell_of q) c r' /\ ref ∈ bucket cells c) /\
  (forall q r',
     get_nearby (build_grid objs) q r' ≡ₚ square_members (cell_of q) r' 0 objs).
Proof.
  intros Hobjs Hp Hr.
  assert (Hperm : get_nearby (build_grid objs) p r ≡ₚ seq 0 (length objs)).
  { unfold build_grid. rewrite get_nearby_registered.
    rewrite square_members_all; [reflexivity|].
    eapply Forall_impl; [exact Hobjs|].
    intros q Hq. now apply world_in_square. }
  split; [exact Hperm|]. split.
  - rewrite Hperm. apply NoDup_ListNoDup, List.seq_NoDup.
  - split.
    + intros cells q r' ref. apply get_nearby_elem.
    + intros q r'. apply get_nearby_registered.
Qed.

Lemma C5_witness :
  get_nearby (build_grid c5_objs) (mkV 1000 1000) 16 ≡ₚ seq 0 (length c5_objs) /\
  NoDup (get_nearby (build_grid c5_objs) (mkV 1000 1000) 16) /\
  (forall (cells : Cells) q r' (ref : Ref),
     ref ∈ get_nearby cells q r' <->
     exists c, in_square (cell_of q) c r' /\ ref ∈ bucket cells c) /\
  (forall q r',
     get_nearby (build_grid c5_objs) q r' ≡ₚ square_members (cell_of q) r' 0 c5_objs).
Proof.
  apply (C5_grid_roundtrip c5_objs (mkV 1000 1000) 16).
  - unfold c5_objs, in_world, WORLD_W, WORLD_H.
    repeat constructor; simpl; lra.
  - unfold in_world, WORLD_W, WORLD_H. simpl. lra.
  - lia.
Defined.

(** ** Steering *)

Lemma steer_total a target mult :
  wf_dna (dna a) -> exists f, steer a target mult = Some f.
Proof.
  intros (speed & force & sense & Hs & Hf & _ & Hsp & Hfp & _).
  unfold steer.
  destruct (Reqb (vlength (vsub target (pos a))) 0) eqn:E; [eauto|].
  apply Reqb_false in E. rewrite Hs. simpl.
  rewrite scale_to_length_some by exact E. simpl. rewrite Hf. simpl.
  match goal with |- context [Rgtb (vlength ?v) force] =>
    destruct (Rgtb (vlength v) force) eqn:E2 end.
  - apply Rgtb_true in E2. rewrite scale_to_length_some by lra. simpl. eauto.
  - simpl. eauto.
Qed.

(** A target on the agent's own spot gives no steering. *)
Lemma steer_same_spot (a : Agent) target mult :
  target = pos a -> steer a target mult = Some vzero.
Proof.
  intros ->. unfold steer.
  replace (Reqb (vlength (vsub (pos a) (pos a))) 0) with true; [reflexivity|].
  symmetry. apply Reqb_true. apply vlength_of_square; [lra|].
  unfold length_squared, vsub. simpl. ring.
Qed.

(** ** Scans *)

Lemma scan_step_spec look skip me c m r o :
  look r = Some o ->
  scan_step look skip me (Some (c, m)) r
  = if skip && negb (active o) then Some (c, m)
    else if Rltb (distance_to me (pos o)) m
         then Some (Some r, distance_to me (pos o)) else Some (c, m).
Proof. intros H. unfold scan_step. simpl. rewrite H. reflexivity. Qed.

(** The loop invariant of a scan that starts from [(c0, m0)]. *)
Lemma scan_fold look skip me refs c0 m0 :
  refs_valid look refs ->
  exists c m,
    fold_left (scan_step look skip me) refs (Some (c0, m0)) = Some (c, m) /\
    m <= m0 /\
    ((c = c0 /\ m = m0) \/
     (exists r o, c = Some r /\ r ∈ refs /\ eligible look skip r o /\
                  m = distance_to me (pos o) /\ m < m0)) /\
    (forall r' o', r' ∈ refs -> eligible look skip r' o' ->
                   m <= distance_to me (pos o')).
Proof.
  revert c0 m0. induction refs as [|r refs IH]; intros c0 m0 Hv.
  - exists c0, m0. simpl. split; [reflexivity|]. split; [lra|].
    split; [auto|]. intros r' o' H. inversion H.
  - assert (Hv' : refs_valid look refs).
    { intros x Hx. apply Hv. now right. }
    destruct (Hv r) as [o Ho]; [left|].
    cbn [fold_left]. rewrite (scan_step_spec _ _ _ _ _ _ _ Ho).
    destruct (skip && negb (active o)) eqn:Esk.
    + destruct (IH c0 m0 Hv') as (c & m & Hf & Hle & Hc & Hmin).
      exists c, m. split; [exact Hf|]. split; [exact Hle|]. split.
      * destruct Hc as [Hc|(r1 & o1 & -> & Hin & He & Hd & Hlt)]; [auto|].
        right. exists r1, o1. split; [reflexivity|]. split; [now right|].
        split; [exact He|]. split; [exact Hd|exact Hlt].
      * intros r' o' Hin He. apply elem_of_cons in Hin as [->|Hin]; [|eapply Hmin; eauto].
        exfalso. destruct He as [Hl Ha]. rewrite Ho in Hl. injection Hl as ->.
        apply andb_true_iff in Esk as [-> Hn]. rewrite Ha in Hn by reflexivity.
        discriminate.
    + assert (Hel : eligible look skip r o).
      { split; [exact Ho|]. intros ->. simpl in Esk.
        now apply negb_false_iff in Esk. }
      destruct (Rltb (distance_to me (pos o)) m0) eqn:El.
      * apply Rltb_true in El.
        destruct (IH (Some r) (distance_to me (pos o)) Hv')
          as (c & m & Hf & Hle & Hc & Hmin).
        exists c, m. split; [exact Hf|]. split; [lra|]. split.
        -- right. destruct Hc as [[-> ->]|(r1 & o1 & -> & Hin & He & Hd & Hlt)].
           ++ exists r, o. split; [reflexivity|]. split; [left|].
              split; [exact Hel|]. split; [reflexivity|exact El].
           ++ exists r1, o1. split; [reflexivity|]. split; [now right|].
              split; [exact He|]. split; [exact Hd|lra].
        -- intros r' o' Hin He. apply elem_of_cons in Hin as [->|Hin]; [|eapply Hmin; eauto].
           destruct He as [Hl _]. rewrite Ho in Hl. injection Hl as ->. exact Hle.
      * apply Rltb_false in El.
        destruct (IH c0 m0 Hv') as (c & m & Hf & Hle & Hc & Hmin).
        exists c, m. split; [exact Hf|]. split; [exact Hle|]. split.
        -- destruct Hc as [Hc|(r1 & o1 & -> & Hin & He & Hd & Hlt)]; [auto|].
           right. exists r1, o1. split; [reflexivity|]. split; [now right|].
           split; [exact He|]. split; [exact Hd|exact Hlt].
        -- intros r' o' Hin He. apply elem_of_cons in Hin as [->|Hin]; [|eapply Hmin; eauto].
           destruct He as [Hl _]. rewrite Ho in Hl. injection Hl as ->. lra.
Qed.

(** A scan returns the nearest eligible object within [sense], or nothing
    when there is none. *)
Lemma scan_spec look skip me refs sense :
  refs_valid look refs ->
  exists c m,
    scan look skip me refs sense = Some (c, m) /\
    match c with
    | Some r => nearest look skip me refs sense r m
    | None => m = sense /\ none_in_reach look skip me refs sense
    end.
Proof.
  intros Hv. unfold scan.
  destruct (scan_fold look skip me refs None sense Hv)
    as (c & m & Hf & Hle & Hc & Hmin).
  exists c, m. split; [exact Hf|].
  destruct Hc as [[-> ->]|(r & o & -> & Hin & He & Hd & Hlt)].
  - split; [reflexivity|exact Hmin].
  - split; [exact Hin|]. split; [exact Hlt|]. split; [eauto|exact Hmin].
Qed.

Lemma nearest_not_none look skip me refs sense r d :
  nearest look skip me refs sense r d ->
  none_in_reach look skip me refs sense -> False.
Proof.
  intros (Hin & Hlt & (o & He & ->) & _) Hn.
  specialize (Hn r o Hin He). lra.
Qed.

(** ** The decisions of a prey *)

Lemma Prey_decide_spec a foods nf ps np :
  wf_dna (dna a) ->
  refs_valid (look_agent ps) np -> refs_valid (look_entity foods) nf ->
  exists sense force a' foods',
    dna_get "sense" (dna a) = Some sense /\
    Prey_decide a foods nf ps np = Some (force, a', foods') /\
    prey_decision a foods nf ps np sense force a' foods'.
Proof.
  intros Hwf Hvp Hvf.
  pose proof Hwf as (speed & frc & sense & _ & _ & Hs & _).
  exists sense. unfold Prey_decide. rewrite Hs. simpl.
  destruct (scan_spec (look_agent ps) false (pos a) np sense Hvp)
    as (c & m & Hsc & Hc).
  rewrite Hsc. simpl. destruct c as [p|].
  - pose proof Hc as (Hin & _ & (q & [Hq _] & _) & _).
    rewrite Hq. simpl.
    destruct (steer_total a (pos q) (-5) Hwf) as [f Hf]. rewrite Hf. simpl.
    exists (vadd vzero f), a, foods. split; [reflexivity|]. split; [reflexivity|].
    left. exists p, m, q, f. auto 10.
  - destruct Hc as [-> Hnone].
    destruct (Rltb (energy a) (max_energy a)) eqn:Ee.
    + apply Rltb_true in Ee.
      destruct (scan_spec (look_entity foods) true (pos a) nf sense Hvf)
        as (c & m & Hsf & Hc).
      rewrite Hsf. simpl. destruct c as [fd|].
      * pose proof Hc as (Hin & _ & (o & [Ho _] & _) & _).
        rewrite Ho. simpl.
        destruct (steer_total a (pos o) (15 / 10) Hwf) as [f Hf].
        rewrite Hf. simpl.
        destruct (Rltb m 10) eqn:Em.
        -- apply Rltb_true in Em.
           exists (vadd vzero f), (set_energy a (energy a + 50)), (kill_food foods fd).
           split; [reflexivity|]. split; [reflexivity|].
           right. split; [exact Hnone|]. right. right. split; [exact Ee|].
           exists fd, m, o, f. auto 10.
        -- apply Rltb_false in Em.
           exists (vadd vzero f), a, foods.
           split; [reflexivity|]. split; [reflexivity|].
           right. split; [exact Hnone|]. right. right. split; [exact Ee|].
           exists fd, m, o, f. auto 10.
      * destruct Hc as [-> Hnf].
        exists vzero, a, foods. split; [reflexivity|]. split; [reflexivity|].
        right. split; [exact Hnone|]. right. left. auto.
    + apply Rltb_false in Ee.
      exists vzero, a, foods. split; [reflexivity|]. split; [reflexivity|].
      right. split; [exact Hnone|]. left. auto.
Qed.

(** Wandering changes the wander angle only, and uses a draw only when it is
    taken. *)
Lemma Prey_wander_spec draws a force k :
  wf_dna (dna a) ->
  exists force1 a3 k',
    Prey_wander draws a force k = Some ((force1, a3), k') /\
    ent a3 = ent a /\ vel a3 = vel a /\ acc a3 = acc a /\ dna a3 = dna a /\
    energy a3 = energy a /\ max_energy a3 = max_energy a /\
    (k <= k')%nat /\
    (1 / 10 <= vlength force -> force1 = force /\ a3 = a /\ k' = k).
Proof.
  intros Hwf. unfold Prey_wander.
  destruct (Rltb (vlength force) (1 / 10)) eqn:E.
  - apply Rltb_true in E.
    unfold bind at 1. rewrite uniform_eq.
    set (a1 := set_wander_theta a _).
    assert (Hc : exists circle,
      (if Rgtb (vlength (vel a1)) 0
       then n ← normalize (vel a1); Some (vscale n 30)
       else Some (mkV 1 0)) = Some circle).
    { destruct (Rgtb (vlength (vel a1)) 0) eqn:Ev; [|eauto].
      apply Rgtb_true in Ev. unfold normalize.
      replace (Reqb (vlength (vel a1)) 0) with false
        by (symmetry; apply Reqb_false; lra).
      simpl. eauto. }
    destruct Hc as [circle Hc]. rewrite Hc.
    unfold bind at 1. unfold lift at 1.
    destruct (steer_total a1 (vadd (vadd (pos a1) circle)
                (rotate_rad (mkV 10 0) (wander_theta a1))) (5 / 10)) as [f Hf].
    { exact Hwf. }
    unfold bind at 1. rewrite Hf. unfold lift, ret.
    exists (vadd force f), a1, (S k). split; [reflexivity|].
    repeat split; try reflexivity; try lia; intros; lra.
  - apply Rltb_false in E. unfold ret. exists force, a, k.
    split; [reflexivity|]. repeat split; try reflexivity; lia.
Qed.

Lemma wf_dna_speed d :
  wf_dna d -> exists speed, dna_get "speed" d = Some speed /\ 0 < speed.
Proof. intros (speed & f & s & Hs & _ & _ & Hp & _). eauto. Qed.

(** [Prey.update]: metabolism, the decision, the wander, the physics. *)
Lemma Prey_update_spec draws a foods gfood ps gpred k :
  wf_dna (dna a) ->
  refs_valid (look_agent ps) (get_nearby gpred (pos a) 1) ->
  refs_valid (look_entity foods) (get_nearby gfood (pos a) 1) ->
  let a1 := set_energy a
              (energy a - (PREY_METABOLISM + length_squared (vel a) * (1 / 100))) in
  exists sense force a2 a' foods' k',
    dna_get "sense" (dna a) = Some sense /\
    Prey_decide a1 foods (get_nearby gfood (pos a) 1)
                ps (get_nearby gpred (pos a) 1) = Some (force, a2, foods') /\
    Prey_update draws a foods gfood ps gpred k = Some ((a', foods'), k') /\
    prey_decision a1 foods (get_nearby gfood (pos a) 1)
                  ps (get_nearby gpred (pos a) 1) sense force a2 foods' /\
    energy a' = energy a2 /\ dna a' = dna a /\ max_energy a' = max_energy a /\
    active a' = active a /\ in_world (pos a') /\ acc a' = vzero /\
    (k <= k')%nat.
Proof.
  intros Hwf Hvp Hvf a1.
  destruct (Prey_decide_spec a1 foods (get_nearby gfood (pos a) 1) ps
              (get_nearby gpred (pos a) 1) Hwf Hvp Hvf)
    as (sense & force & a2 & foods' & Hs & Hd & Hdec).
  assert (Ha2 : dna a2 = dna a /\ max_energy a2 = max_energy a /\
                active a2 = active a).
  { destruct Hdec as [(p & d & q & f & _ & _ & _ & _ & -> & _)
                     |(_ & [(_ & _ & -> & _)
                           |[(_ & _ & _ & -> & _)
                            |(_ & fd & d & o & f & _ & _ & _ & _ &
                              [(_ & -> & _)|(_ & -> & _)])]])];
      repeat split; reflexivity. }
  destruct Ha2 as (Hdna2 & Hmax2 & Hact2).
  assert (Hwf2 : wf_dna (dna a2)) by (rewrite Hdna2; exact Hwf).
  destruct (Prey_wander_spec draws a2 force k Hwf2)
    as (force1 & a3 & k' & Hw & Hent & Hvel & Hacc & Hdna3 & Hen3 & Hmax3 & Hkk & Hk).
  destruct (wf_dna_speed _ Hwf) as (speed & Hsp & Hpos).
  destruct (update_physics_spec (set_acc a3 (vadd (acc a3) force1)) speed)
    as (a' & Hp & _ & _ & Hacc' & Hpos' & Hact' & Hdna' & Hen' & Hmax' & _).
  { simpl. rewrite Hdna3, Hdna2. exact Hsp. }
  { lra. }
  exists sense, force, a2, a', foods', k'.
  split; [exact Hs|]. split; [exact Hd|]. split.
  - unfold Prey_update. fold a1. simpl pos.
    unfold bind at 1. unfold lift at 1. rewrite Hd.
    unfold bind at 1. rewrite Hw. unfold bind at 1. unfold lift. rewrite Hp.
    reflexivity.
  - split; [exact Hdec|]. simpl in *.
    rewrite Hen', Hdna', Hmax', Hact', Hen3, Hdna3, Hmax3, Hent.
    split; [reflexivity|]. split; [exact Hdna2|]. split; [exact Hmax2|].
    split; [exact Hact2|]. split; [|split; [exact Hacc'|]].
    + rewrite Hpos'. unfold in_world. simpl.
      split; apply wrap_axis_range; unfold WORLD_W, WORLD_H; lra.
    + exact Hkk.
Qed.

(** ** The decisions of a predator *)

Lemma Predator_decide_spec draws a prey_store neighbors k :
  wf_dna (dna a) ->
  refs_valid (look_agent prey_store) neighbors ->
  exists sense force a' prey' k',
    dna_get "sense" (dna a) = Some sense /\
    Predator_decide draws a prey_store neighbors k = Some ((force, a', prey'), k') /\
    pred_decision a prey_store neighbors sense force a' prey' /\
    (k <= k')%nat.
Proof.
  intros Hwf Hv.
  pose proof Hwf as (speed & frc & sense & _ & _ & Hs & _).
  exists sense. unfold Predator_decide.
  unfold bind at 1. unfold lift at 1. rewrite Hs.
  destruct (scan_spec (look_agent prey_store) true (pos a) neighbors sense Hv)
    as (c & m & Hsc & Hc).
  unfold bind at 1. unfold lift at 1. rewrite Hsc.
  destruct c as [p|]; cbn [fst snd].
  - pose proof Hc as (Hin & _ & (q & [Hq _] & _) & _).
    unfold bind at 1. unfold lift at 1. rewrite Hq.
    destruct (steer_total a (pos q) (12 / 10) Hwf) as [f Hf].
    unfold bind at 1. unfold lift at 1. rewrite Hf.
    destruct (Rltb m 12) eqn:Em.
    + apply Rltb_true in Em. unfold ret.
      exists (vadd vzero f), (set_energy a (energy a + 120)),
             (kill_agent prey_store p), k.
      split; [reflexivity|]. split; [reflexivity|]. split; [|lia].
      left. exists p, m, q, f. auto 10.
    + apply Rltb_false in Em. unfold ret.
      exists (vadd vzero f), a, prey_store, k.
      split; [reflexivity|]. split; [reflexivity|]. split; [|lia].
      left. exists p, m, q, f. auto 10.
  - destruct Hc as [-> Hnone].
    unfold bind at 1. rewrite uniform_eq. unfold ret.
    eexists _, _, prey_store, (S k).
    split; [reflexivity|]. split; [reflexivity|]. split; [|lia].
    right. split; [exact Hnone|]. split; [reflexivity|].
    eexists. split; reflexivity.
Qed.

Lemma pred_decision_fields a prey_store neighbors sense force a' prey' :
  pred_decision a prey_store neighbors sense force a' prey' ->
  dna a' = dna a /\ max_energy a' = max_energy a /\ active a' = active a /\
  pos a' = pos a /\ vel a' = vel a /\ acc a' = acc a.
Proof.
  intros [(p & d & q & f & _ & _ & _ & _ & [(_ & -> & _)|(_ & -> & _)])
         |(_ & _ & du & -> & _)]; repeat split; reflexivity.
Qed.

(** [Predator.update]: metabolism, the hunt or the patrol, the physics. *)
Lemma Predator_update_spec draws a prey_store gprey k :
  wf_dna (dna a) ->
  refs_valid (look_agent prey_store) (get_nearby gprey (pos a) 2) ->
  let a1 := set_energy a
              (energy a - (PRED_METABOLISM + length_squared (vel a) * (1 / 100))) in
  exists sense force a2 a' prey' k',
    dna_get "sense" (dna a) = Some sense /\
    Predator_decide draws a1 prey_store (get_nearby gprey (pos a) 2) k
      = Some ((force, a2, prey'), k') /\
    Predator_update draws a prey_store gprey k = Some ((a', prey'), k') /\
    pred_decision a1 prey_store (get_nearby gprey (pos a) 2) sense force a2 prey' /\
    energy a' = energy a2 /\ dna a' = dna a /\ max_energy a' = max_energy a /\
    active a' = active a /\ in_world (pos a') /\ acc a' = vzero /\
    (k <= k')%nat.
Proof.
  intros Hwf Hv a1.
  destruct (Predator_decide_spec draws a1 prey_store
              (get_nearby gprey (pos a) 2) k Hwf Hv)
    as (sense & force & a2 & prey' & k' & Hs & Hd & Hdec & Hk).
  destruct (pred_decision_fields _ _ _ _ _ _ _ Hdec)
    as (Hdna2 & Hmax2 & Hact2 & _).
  destruct (wf_dna_speed _ Hwf) as (speed & Hsp & Hpos).
  destruct (update_physics_spec (set_acc a2 (vadd (acc a2) force)) speed)
    as (a' & Hp & _ & _ & Hacc' & Hpos' & Hact' & Hdna' & Hen' & Hmax' & _).
  { simpl. rewrite Hdna2. exact Hsp. }
  { lra. }
  exists sense, force, a2, a', prey', k'.
  split; [exact Hs|]. split; [exact Hd|]. split.
  - unfold Predator_update. fold a1. simpl pos.
    unfold bind at 1. rewrite Hd.
    unfold bind at 1. unfold lift. rewrite Hp. reflexivity.
  - split; [exact Hdec|]. simpl in *.
    rewrite Hen', Hdna', Hmax', Hact'.
    split; [reflexivity|]. split; [exact Hdna2|]. split; [exact Hmax2|].
    split; [exact Hact2|]. split; [|split; [exact Hacc'|exact Hk]].
    rewrite Hpos'. unfold in_world. simpl.
    split; apply wrap_axis_range; unfold WORLD_W, WORLD_H; lra.
Qed.

Lemma prey_decision_fields a foods nf ps np sense force a' foods' :
  prey_decision a foods nf ps np sense force a' foods' ->
  dna a' = dna a /\ max_energy a' = max_energy a /\ active a' = active a /\
  pos a' = pos a /\ vel a' = vel a /\ acc a' = acc a.
Proof.
  intros [(p & d & q & f & _ & _ & _ & _ & -> & _)
         |(_ & [(_ & _ & -> & _)
               |[(_ & _ & _ & -> & _)
                |(_ & fd & d & o & f & _ & _ & _ & _ &
                  [(_ & -> & _)|(_ & -> & _)])]])];
    repeat split; reflexivity.
Qed.

(** ** References of a grid *)

Lemma cell_members_bounds c i objs (r : Ref) :
  r ∈ cell_members c i objs -> (i <= r < i + length objs)%nat.
Proof.
  revert i. induction objs as [|p rest IH]; intros i; simpl.
  - intros H. inversion H.
  - rewrite elem_of_app. intros [H|H].
    + destruct (decide (cell_of p = c)); [|inversion H].
      apply list_elem_of_singleton in H as ->. lia.
    + apply IH in H. lia.
Qed.

Lemma build_grid_bounded objs : grid_bounded (build_grid objs) (length objs).
Proof.
  intros c r. rewrite build_grid_bucket. intros H.
  apply cell_members_bounds in H. lia.
Qed.

Lemma get_nearby_bounded g n p rad (r : Ref) :
  grid_bounded g n -> r ∈ get_nearby g p rad -> (r < n)%nat.
Proof.
  intros Hb H. apply get_nearby_elem in H as (c & _ & H). eauto.
Qed.

Lemma refs_valid_entity g (store : list Entity) p rad :
  grid_bounded g (length store) ->
  refs_valid (look_entity store) (get_nearby g p rad).
Proof.
  intros Hb r Hr. unfold look_entity.
  apply lookup_lt_is_Some_2. eapply get_nearby_bounded; eauto.
Qed.

Lemma refs_valid_agent g (store : list Agent) p rad :
  grid_bounded g (length store) ->
  refs_valid (look_agent store) (get_nearby g p rad).
Proof.
  intros Hb r Hr. unfold look_agent. apply fmap_is_Some.
  apply lookup_lt_is_Some_2. eapply get_nearby_bounded; eauto.
Qed.

Lemma kill_food_length store r : length (kill_food store r) = length store.
Proof. unfold kill_food. apply length_alter. Qed.

Lemma kill_agent_length store r : length (kill_agent store r) = length store.
Proof. unfold kill_agent. apply length_alter. Qed.

(** ** Distances and cells *)

Lemma distance_axes p q :
  Rabs (vx q - vx p) <= distance_to p q /\ Rabs (vy q - vy p) <= distance_to p q.
Proof.
  unfold distance_to.
  pose proof (vlength_nonneg (vsub q p)) as H0.
  pose proof (vlength_square (vsub q p)) as Hsq.
  remember (vlength (vsub q p)) as d eqn:Ed. clear Ed.
  unfold length_squared, vsub in Hsq. simpl in Hsq.
  remember (vx q - vx p) as dx eqn:Edx. remember (vy q - vy p) as dy eqn:Edy.
  clear Edx Edy.
  pose proof (Rle_0_sqr dx) as Hx. pose proof (Rle_0_sqr dy) as Hy.
  unfold Rsqr in Hx, Hy.
  split; apply Rabs_le; split; nra.
Qed.

Lemma floordiv_near x y :
  Rabs (x - y) < CELL_SIZE ->
  (floordiv x CELL_SIZE - 1 <= floordiv y CELL_SIZE <= floordiv x CELL_SIZE + 1)%Z.
Proof.
  unfold CELL_SIZE, floordiv. intros H.
  apply Rabs_def2 in H as [H1 H2].
  destruct (base_Int_part (x / 120)) as [Ha1 Ha2].
  destruct (base_Int_part (y / 120)) as [Hb1 Hb2].
  split.
  - apply Z.lt_succ_r. apply lt_IZR. rewrite succ_IZR, minus_IZR. lra.
  - apply Z.lt_succ_r. apply lt_IZR. rewrite succ_IZR, plus_IZR. lra.
Qed.

(** Within the cell size, a neighbour is in the square of radius one. *)
Lemma near_in_square p q :
  distance_to p q < CELL_SIZE -> in_square (cell_of p) (cell_of q) 1.
Proof.
  intros H. destruct (distance_axes p q) as [Hx Hy].
  unfold in_square, cell_of. simpl.
  assert (Hx' : Rabs (vx p - vx q) < CELL_SIZE)
    by (rewrite Rabs_minus_sym; lra).
  assert (Hy' : Rabs (vy p - vy q) < CELL_SIZE)
    by (rewrite Rabs_minus_sym; lra).
  apply floordiv_near in Hx', Hy'. lia.
Qed.

(** The query of radius one over the grid of a store returns every object
    that is closer than the cell size. *)
Lemma get_nearby_covers objs p (j : nat) q :
  objs !! j = Some q -> distance_to p q < CELL_SIZE ->
  j ∈ get_nearby (build_grid objs) p 1.
Proof.
  intros Hj Hd. unfold build_grid. rewrite get_nearby_registered.
  apply square_members_elem. exists q. rewrite Nat.sub_0_r.
  split; [exact Hj|]. split; [lia|]. now apply near_in_square.
Qed.

(** ** C6 *)

(** The prey after metabolism, as [Prey.update] decides on it. *)
Lemma prey_decision_flee a foods nf ps np sense force a' foods' :
  prey_decision a foods nf ps np sense force a' foods' ->
  (exists p q, p ∈ np /\ look_agent ps p = Some q /\
               distance_to (pos a) (pos q) < sense) ->
  exists p d q f,
    nearest (look_agent ps) false (pos a) np sense p d /\
    look_agent ps p = Some q /\ steer a (pos q) (-5) = Some f /\
    force = vadd vzero f /\ a' = a /\ foods' = foods.
Proof.
  intros [H|[Hnone _]] (p & q & Hin & Hq & Hd); [exact H|].
  exfalso. assert (He : eligible (look_agent ps) false p q).
  { split; [exact Hq|discriminate]. }
  specialize (Hnone p q Hin He). lra.
Qed.

Lemma prey_decision_eats a foods nf ps np sense force a' foods' :
  prey_decision a foods nf ps np sense force a' foods' ->
  foods' <> foods \/ energy a' <> energy a ->
  none_in_reach (look_agent ps) false (pos a) np sense /\
  energy a < max_energy a /\
  exists fd d o,
    nearest (look_entity foods) true (pos a) nf sense fd d /\
    look_entity foods fd = Some o /\ d < 10 /\
    energy a' = energy a + 50 /\ foods' = kill_food foods fd.
Proof.
  intros [(p & d & q & f & _ & _ & _ & _ & -> & ->)
         |(Hnone & [(_ & _ & -> & ->)
                   |[(_ & _ & _ & -> & ->)
                    |(He & fd & d & o & f & Hn & Ho & _ & _ &
                      [(Hd & -> & ->)|(_ & -> & ->)])]])] Hch;
    try (destruct Hch; congruence).
  split; [exact Hnone|]. split; [exact He|].
  exists fd, d, o. auto.
Qed.


Lemma floordiv_eq x z :
  IZR z * 120 <= x < (IZR z + 1) * 120 -> floordiv x CELL_SIZE = z.
Proof.
  intros H. unfold floordiv, CELL_SIZE. symmetry. apply Int_part_spec. lra.
Qed.

Lemma get_nearby_single_out p q r :
  ~ in_square (cell_of p) (cell_of q) r -> get_nearby (build_grid [q]) p r = [].
Proof.
  intros H. apply Permutation_nil. symmetry.
  unfold build_grid. rewrite get_nearby_registered. simpl.
  destruct (decide (in_square (cell_of p) (cell_of q) r)); [contradiction|].
  reflexivity.
Qed.

Lemma get_nearby_single_in p q r :
  in_square (cell_of p) (cell_of q) r -> get_nearby (build_grid [q]) p r = [0%nat].
Proof.
  intros H. apply Permutation_length_1_inv. symmetry.
  unfold build_grid. rewrite get_nearby_registered. simpl.
  destruct (decide (in_square (cell_of p) (cell_of q) r)); [|contradiction].
  reflexivity.
Qed.

Lemma in_square_same c r : (0 <= r)%Z -> in_square c c r.
Proof. unfold in_square. lia. Qed.

Lemma distance_same_spot p : distance_to p p = 0.
Proof.
  unfold distance_to. apply vlength_of_square; [lra|].
  unfold length_squared, vsub. simpl. ring.
Qed.

Lemma c6_prey_wf : wf_dna (dna c6_prey).
Proof.
  exists (35 / 10), (5 / 10), 130. simpl.
  repeat split; try reflexivity; lra.
Qed.

Lemma c6_pred_unseen :
  get_nearby (build_grid [pos c6_pred]) (pos c6_prey) 1 = [].
Proof.
  apply get_nearby_single_out. unfold in_square, cell_of. simpl.
  rewrite (floordiv_eq 119 0), (floordiv_eq 241 2), (floordiv_eq 0 0)
    by (simpl; lra).
  lia.
Qed.

Lemma c6_pred_within_sense :
  distance_to (pos c6_prey) (pos c6_pred) = 122.
Proof.
  unfold distance_to. apply vlength_of_square; [lra|].
  unfold length_squared, vsub. simpl. ring.
Qed.



(** ** Stores and meals *)

Lemma deactivate_inactive o : active o = false -> deactivate o = o.
Proof. destruct o as [p b]. simpl. now intros ->. Qed.

Lemma count_active_cons o store :
  count_active (o :: store)
  = ((if active o then 1 else 0) + count_active store)%nat.
Proof. unfold count_active. simpl. now destruct (active o). Qed.

Lemma count_active_deactivate store r o :
  store !! r = Some o -> active o = true ->
  S (count_active (alter deactivate r store)) = count_active store.
Proof.
  revert r. induction store as [|x store IH]; intros r Hr Ha; [discriminate|].
  destruct r as [|r]; simpl in *.
  - injection Hr as ->. rewrite !count_active_cons, Ha. simpl. reflexivity.
  - specialize (IH r Hr Ha). unfold alter in IH.
    rewrite !count_active_cons. destruct (active x); lia.
Qed.

(** What a meal leaves of a store. *)
Lemma meal_store store store' reward gain :
  meal store store' reward gain ->
  length store' = length store /\
  reward * INR (count_active store') + gain = reward * INR (count_active store) /\
  (forall i o, store !! i = Some o -> active o = false -> store' !! i = Some o) /\
  (forall i o', store' !! i = Some o' ->
     exists o, store !! i = Some o /\ pos o' = pos o /\
               (active o' = true -> active o = true)).
Proof.
  intros [[-> ->]|(r & o & Hr & Ha & -> & ->)].
  - split; [reflexivity|]. split; [lra|]. split; [auto|]. eauto.
  - split; [apply length_alter|]. split.
    + rewrite <- (count_active_deactivate store r o Hr Ha), S_INR. lra.
    + split.
      * intros i x Hi Hx. destruct (decide (r = i)) as [->|Hne].
        -- rewrite list_lookup_alter_eq, Hi. simpl.
           now rewrite deactivate_inactive.
        -- now rewrite list_lookup_alter_ne.
      * intros i o' Hi. destruct (decide (r = i)) as [->|Hne].
        -- rewrite list_lookup_alter_eq, Hr in Hi. simpl in Hi.
           injection Hi as <-. exists o. simpl. auto.
        -- rewrite list_lookup_alter_ne in Hi by exact Hne. eauto.
Qed.

Lemma kill_agent_ent store r :
  map ent (kill_agent store r) = alter deactivate r (map ent store).
Proof.
  unfold kill_agent. revert r.
  induction store as [|x store IH]; intros r; [reflexivity|].
  destruct r as [|r]; simpl.
  - reflexivity.
  - f_equal. apply IH.
Qed.

(** ** One prey of the pass *)

Lemma prey_decision_meal a foods nf ps np sense force a' foods' :
  prey_decision a foods nf ps np sense force a' foods' ->
  exists gain,
    meal foods foods' 50 gain /\ energy a' = energy a + gain /\
    (gain <> 0 -> energy a < max_energy a).
Proof.
  intros [(p & d & q & f & _ & _ & _ & _ & -> & ->)
         |(Hnone & [(_ & _ & -> & ->)
                   |[(_ & _ & _ & -> & ->)
                    |(He & fd & d & o & f & Hn & Ho & _ & _ &
                      [(Hd & -> & ->)|(_ & -> & ->)])]])];
    try (exists 0; split; [left; auto|split; [lra|intros; lra]]).
  exists 50. split; [|split; [reflexivity|auto]].
  right. destruct Hn as (_ & _ & (o' & [Ho' Hact] & _) & _).
  exists fd, o'. split; [exact Ho'|]. split; [now apply Hact|].
  split; reflexivity.
Qed.

Lemma kills_refl n s : kills n s s.
Proof. split; [reflexivity|auto]. Qed.

Lemma kills_trans n s1 s2 s3 : kills n s1 s2 -> kills n s2 s3 -> kills n s1 s3.
Proof.
  intros [Hl1 H1] [Hl2 H2]. split; [congruence|].
  intros i x Hx. destruct (H1 i x Hx) as [H|[Hlt H]].
  - apply H2. exact H.
  - right. split; [exact Hlt|].
    destruct (H2 i _ H) as [H'|[_ H']]; exact H'.
Qed.

Lemma kills_kill_agent n s p : (p < n)%nat -> kills n s (kill_agent s p).
Proof.
  intros Hp. split; [apply kill_agent_length|].
  intros i x Hx. unfold kill_agent. destruct (decide (p = i)) as [->|Hne].
  - right. split; [exact Hp|]. rewrite list_lookup_alter_eq, Hx. reflexivity.
  - left. now rewrite list_lookup_alter_ne.
Qed.

(** Beyond the references of the grid, a store is left as it was. *)
Lemma kills_drop n s s' : kills n s s' -> drop n s' = drop n s.
Proof.
  intros [Hl H]. apply list_eq. intros i. rewrite !lookup_drop.
  destruct (s !! (n + i)%nat) as [x|] eqn:E.
  - destruct (H _ _ E) as [H'|[Hlt _]]; [exact H'|lia].
  - apply lookup_ge_None. apply lookup_ge_None in E. lia.
Qed.

Lemma kills_Forall n s s' (P : Agent -> Prop) :
  (forall x, P x -> P (set_active x false)) ->
  kills n s s' -> Forall P s -> Forall P s'.
Proof.
  intros HP [Hl H] Hs. rewrite Forall_lookup in Hs |- *.
  intros i y Hy.
  destruct (lookup_lt_is_Some_2 s i) as [x Hx].
  { rewrite <- Hl. eapply lookup_lt_Some. exact Hy. }
  destruct (H i x Hx) as [H'|[_ H']]; rewrite H' in Hy; injection Hy as <-.
  - eapply Hs. exact Hx.
  - apply HP. eapply Hs. exact Hx.
Qed.

Lemma pred_decision_meal a prey_store neighbors sense force a' prey' n :
  pred_decision a prey_store neighbors sense force a' prey' ->
  (forall r : Ref, r ∈ neighbors -> (r < n)%nat) ->
  exists gain,
    meal (map ent prey_store) (map ent prey') 120 gain /\
    energy a' = energy a + gain /\ length prey' = length prey_store /\
    kills n prey_store prey'.
Proof.
  intros [(p & d & q & f & Hn & _ & _ & _ & [(_ & -> & ->)|(_ & -> & ->)])
         |(_ & -> & du & -> & _)] Hb;
    try (exists 0; split; [left; auto|split; [simpl; lra|
           split; [reflexivity|apply kills_refl]]]).
  exists 120. split; [|split; [reflexivity|split; [apply kill_agent_length|]]].
  - right. destruct Hn as (_ & _ & (o' & [Ho' Hact] & _) & _).
    exists p, o'. split.
    + unfold look_agent in Ho'. rewrite list_lookup_fmap. exact Ho'.
    + split; [now apply Hact|]. split; [apply kill_agent_ent|reflexivity].
  - apply kills_kill_agent. apply Hb. apply Hn.
Qed.

Lemma grid_bounded_mono g n m :
  grid_bounded g n -> (n <= m)%nat -> grid_bounded g m.
Proof. intros H Hle c r Hr. specialize (H c r Hr). lia. Qed.

Lemma wf_dna_nonempty d : wf_dna d -> d <> [].
Proof.
  intros (s & _ & _ & Hs & _). eapply has_gene_nonempty. eauto.
Qed.

(** The reproduction test never faults on an agent with genes. *)
Lemma reproduce_prey_spec draws u k :
  dna u <> [] ->
  exists q kids k',
    reproduce draws (Prey_init draws) REPRO_COST_PREY u k = Some ((q, kids), k') /\
    repro_outcome draws Prey_init REPRO_COST_PREY u q kids /\
    Forall (fun c => energy c = 150) kids /\
    energy q + REPRO_COST_PREY * INR (length kids) = energy u /\
    dna q = dna u /\ ent q = ent u /\ acc q = acc u /\
    max_energy q = max_energy u.
Proof.
  intros Hd. destruct (Rlt_dec (REPRO_COST_PREY + 50) (energy u)) as [Hgt|Hle].
  - destruct (reproduce_prey_above draws u k Hgt Hd)
      as (nd & child & Hm & Hi & Hr & Hdna & Hpos & Hact & Hacc & _ & Hen).
    exists (set_energy u (energy u - REPRO_COST_PREY)), [child],
           (k + length (dna u) + 3)%nat.
    split; [exact Hr|]. split.
    + left. split; [lra|]. split; [reflexivity|].
      exists child, nd, k, (k + length (dna u))%nat, (k + length (dna u) + 3)%nat.
      auto 10.
    + split; [repeat constructor; exact Hen|].
      simpl. repeat split; try reflexivity. lra.
  - exists u, [], k. rewrite reproduce_below by lra.
    split; [reflexivity|]. split; [right; split; [lra|auto]|].
    split; [constructor|]. simpl. repeat split; try reflexivity. lra.
Qed.

Lemma reproduce_pred_spec draws u k :
  dna u <> [] ->
  exists q kids k',
    reproduce draws (Predator_init draws) REPRO_COST_PRED u k
      = Some ((q, kids), k') /\
    repro_outcome draws Predator_init REPRO_COST_PRED u q kids /\
    Forall (fun c => energy c = 300) kids /\
    energy q + REPRO_COST_PRED * INR (length kids) = energy u /\
    dna q = dna u /\ ent q = ent u /\ acc q = acc u /\
    max_energy q = max_energy u.
Proof.
  intros Hd. destruct (Rlt_dec (REPRO_COST_PRED + 50) (energy u)) as [Hgt|Hle].
  - destruct (reproduce_pred_above draws u k Hgt Hd)
      as (nd & child & Hm & Hi & Hr & Hdna & Hpos & Hact & Hacc & _ & Hen).
    exists (set_energy u (energy u - REPRO_COST_PRED)), [child],
           (k + length (dna u) + 3)%nat.
    split; [exact Hr|]. split.
    + left. split; [lra|]. split; [reflexivity|].
      exists child, nd, k, (k + length (dna u))%nat, (k + length (dna u) + 3)%nat.
      auto 10.
    + split; [repeat constructor; exact Hen|].
      simpl. repeat split; try reflexivity. lra.
  - exists u, [], k. rewrite reproduce_below by lra.
    split; [reflexivity|]. split; [right; split; [lra|auto]|].
    split; [constructor|]. simpl. repeat split; try reflexivity. lra.
Qed.

(** ** The pass over the prey *)

Lemma prey_loop_cons draws p rest foods gf preds gp k u foods1 k1 q ks k2
    upd new foods' k' :
  Prey_update draws p foods gf preds gp k = Some ((u, foods1), k1) ->
  reproduce draws (Prey_init draws) REPRO_COST_PREY u k1 = Some ((q, ks), k2) ->
  prey_loop draws rest foods1 gf preds gp k2 = Some ((upd, new, foods'), k') ->
  prey_loop draws (p :: rest) foods gf preds gp k
  = Some ((q :: upd, ks ++ new, foods'), k').
Proof.
  intros Hu Hr Hl. simpl. unfold bind at 1. rewrite Hu. cbn [fst snd].
  unfold bind at 1. rewrite Hr. unfold bind at 1. rewrite Hl. reflexivity.
Qed.

Lemma preds_loop_cons draws p rest prey_store gprey k u prey1 k1 q ks k2
    upd new prey' k' :
  Predator_update draws p prey_store gprey k = Some ((u, prey1), k1) ->
  reproduce draws (Predator_init draws) REPRO_COST_PRED u k1 = Some ((q, ks), k2) ->
  preds_loop draws rest prey1 gprey k2 = Some ((upd, new, prey'), k') ->
  preds_loop draws (p :: rest) prey_store gprey k
  = Some ((q :: upd, ks ++ new, prey'), k').
Proof.
  intros Hu Hr Hl. simpl. unfold bind at 1. rewrite Hu. cbn [fst snd].
  unfold bind at 1. rewrite Hr. unfold bind at 1. rewrite Hl. reflexivity.
Qed.

(** One prey of the pass: its update, then the reproduction test. *)
Lemma prey_body_spec draws p foods gf preds gp k :
  wf_dna (dna p) ->
  grid_bounded gf (length foods) -> grid_bounded gp (length preds) ->
  exists u foods1 k1 q ks k2 gain,
    Prey_update draws p foods gf preds gp k = Some ((u, foods1), k1) /\
    reproduce draws (Prey_init draws) REPRO_COST_PREY u k1 = Some ((q, ks), k2) /\
    meal foods foods1 50 gain /\
    energy u = energy p - prey_metabolism p + gain /\
    (gain <> 0 -> energy p - prey_metabolism p < max_energy p) /\
    repro_outcome draws Prey_init REPRO_COST_PREY u q ks /\
    Forall (fun c => energy c = 150) ks /\
    energy q + REPRO_COST_PREY * INR (length ks) = energy u /\
    kept p q.
Proof.
  intros Hwf Hbf Hbp.
  destruct (Prey_update_spec draws p foods gf preds gp k Hwf)
    as (sense & force & a2 & u & foods1 & k1 & _ & _ & Hu & Hdec & He & Hdna &
        Hmax & Hact & Hw & Hacc & _).
  { now apply refs_valid_agent. }
  { now apply refs_valid_entity. }
  destruct (prey_decision_meal _ _ _ _ _ _ _ _ _ Hdec) as (gain & Hm & Hg & Hlt).
  destruct (reproduce_prey_spec draws u k1)
    as (q & ks & k2 & Hr & Hout & Hkids & Hsum & Hdq & Heq & Haq & Hmq).
  { rewrite Hdna. now apply wf_dna_nonempty. }
  exists u, foods1, k1, q, ks, k2, gain.
  split; [exact Hu|]. split; [exact Hr|]. split; [exact Hm|].
  split; [rewrite He, Hg; reflexivity|]. split; [exact Hlt|].
  split; [exact Hout|]. split; [exact Hkids|]. split; [exact Hsum|].
  unfold kept. rewrite Hdq, Heq, Haq, Hmq. auto.
Qed.

Lemma pred_body_spec draws p prey_store gprey n k :
  wf_dna (dna p) ->
  grid_bounded gprey n -> (n <= length prey_store)%nat ->
  exists u prey1 k1 q ks k2 gain,
    Predator_update draws p prey_store gprey k = Some ((u, prey1), k1) /\
    reproduce draws (Predator_init draws) REPRO_COST_PRED u k1
      = Some ((q, ks), k2) /\
    meal (map ent prey_store) (map ent prey1) 120 gain /\
    kills n prey_store prey1 /\
    energy u = energy p - pred_metabolism p + gain /\
    repro_outcome draws Predator_init REPRO_COST_PRED u q ks /\
    Forall (fun c => energy c = 300) ks /\
    energy q + REPRO_COST_PRED * INR (length ks) = energy u /\
    kept p q.
Proof.
  intros Hwf Hb Hn.
  destruct (Predator_update_spec draws p prey_store gprey k Hwf)
    as (sense & force & a2 & u & prey1 & k1 & _ & _ & Hu & Hdec & He & Hdna &
        Hmax & Hact & Hw & Hacc & _).
  { apply refs_valid_agent. eapply grid_bounded_mono; eauto. }
  destruct (pred_decision_meal _ _ _ _ _ _ _ n Hdec)
    as (gain & Hm & Hg & Hlen & Hk).
  { intros r Hr. eapply get_nearby_bounded; eauto. }
  destruct (reproduce_pred_spec draws u k1)
    as (q & ks & k2 & Hr & Hout & Hkids & Hsum & Hdq & Heq & Haq & Hmq).
  { rewrite Hdna. now apply wf_dna_nonempty. }
  exists u, prey1, k1, q, ks, k2, gain.
  split; [exact Hu|]. split; [exact Hr|]. split; [exact Hm|].
  split; [exact Hk|].
  split; [rewrite He, Hg; reflexivity|].
  split; [exact Hout|]. split; [exact Hkids|]. split; [exact Hsum|].
  unfold kept. rewrite Hdq, Heq, Haq, Hmq. auto.
Qed.

Lemma prey_loop_spec draws ps foods gf preds gp k :
  Forall (fun p => wf_dna (dna p)) ps ->
  grid_bounded gf (length foods) -> grid_bounded gp (length preds) ->
  exists upd kids foods' k',
    prey_loop draws ps foods gf preds gp k
      = Some ((upd, concat kids, foods'), k') /\
    Forall3 (prey_pass_rel draws gf preds gp (length foods)) ps upd kids /\
    length foods' = length foods /\
    (forall i o, foods !! i = Some o -> active o = false -> foods' !! i = Some o) /\
    (forall i o', foods' !! i = Some o' ->
       exists o, foods !! i = Some o /\ pos o' = pos o /\
                 (active o' = true -> active o = true)) /\
    sumR (map energy upd) + REPRO_COST_PREY * INR (length (concat kids))
      + 50 * INR (count_active foods')
    = sumR (map energy ps) - sumR (map prey_metabolism ps)
      + 50 * INR (count_active foods) /\
    Forall2 kept ps upd.
Proof.
  intros Hwf. revert foods k.
  induction Hwf as [|p rest Hp Hrest IH]; intros foods k Hbf Hbp.
  - exists [], [], foods, k. simpl. unfold ret.
    split; [reflexivity|]. split; [constructor|]. split; [reflexivity|].
    split; [auto|]. split; [eauto|]. split; [lra|constructor].
  - destruct (prey_body_spec draws p foods gf preds gp k Hp Hbf Hbp)
      as (u & foods1 & k1 & q & ks & k2 & gain & Hu & Hr & Hm & He & Hlt &
          Hout & Hkids & Hsum & Hkept).
    destruct (meal_store _ _ _ _ Hm) as (Hlen & Hcnt & Hina & Hpos).
    destruct (IH foods1 k2) as (upd & kids & foods' & k' & Hl & HF & Hlen' &
                                 Hina' & Hpos' & Hacc & Hk2).
    { intros c r Hc. specialize (Hbf c r Hc). unfold Food in *. lia. }
    { exact Hbp. }
    exists (q :: upd), (ks :: kids), foods', k'.
    split; [exact (prey_loop_cons _ _ _ _ _ _ _ _ _ _ _ _ _ _ _ _ _ _ Hu Hr Hl)|].
    unfold Food in *. split.
    { constructor.
      - exists foods, k, u, foods1, k1, gain. auto 10.
      - rewrite Hlen in HF. exact HF. }
    split; [now rewrite Hlen', Hlen|].
    split; [intros i o Hi Ho; apply Hina'; [now apply Hina|exact Ho]|].
    split.
    { intros i o' Hi. destruct (Hpos' i o' Hi) as (o1 & Hi1 & Hp1 & Ha1).
      destruct (Hpos i o1 Hi1) as (o & Hi0 & Hp0 & Ha0).
      exists o. split; [exact Hi0|]. split; [congruence|auto]. }
    split; [|constructor; [exact Hkept|exact Hk2]].
    simpl. rewrite length_app, plus_INR. lra.
Qed.

Lemma preds_loop_spec draws ps prey_store gprey n k :
  Forall (fun p => wf_dna (dna p)) ps ->
  grid_bounded gprey n -> (n <= length prey_store)%nat ->
  exists upd kids prey' k',
    preds_loop draws ps prey_store gprey k
      = Some ((upd, concat kids, prey'), k') /\
    Forall3 (pred_pass_rel draws gprey (length prey_store)) ps upd kids /\
    kills n prey_store prey' /\
    (forall i o, map ent prey_store !! i = Some o -> active o = false ->
                 map ent prey' !! i = Some o) /\
    sumR (map energy upd) + REPRO_COST_PRED * INR (length (concat kids))
      + 120 * INR (count_active (map ent prey'))
    = sumR (map energy ps) - sumR (map pred_metabolism ps)
      + 120 * INR (count_active (map ent prey_store)) /\
    Forall2 kept ps upd.
Proof.
  intros Hwf. revert prey_store k.
  induction Hwf as [|p rest Hp Hrest IH]; intros prey_store k Hb Hn.
  - exists [], [], prey_store, k. simpl. unfold ret.
    split; [reflexivity|]. split; [constructor|]. split; [apply kills_refl|].
    split; [auto|]. split; [lra|constructor].
  - destruct (pred_body_spec draws p prey_store gprey n k Hp Hb Hn)
      as (u & prey1 & k1 & q & ks & k2 & gain & Hu & Hr & Hm & Hk & He &
          Hout & Hkids & Hsum & Hkept).
    destruct (meal_store _ _ _ _ Hm) as (_ & Hcnt & Hina & _).
    pose proof Hk as [Hlen _].
    destruct (IH prey1 k2) as (upd & kids & prey' & k' & Hl & HF & Hk' &
                                Hina' & Hacc & Hk2).
    { exact Hb. }
    { lia. }
    exists (q :: upd), (ks :: kids), prey', k'.
    split; [exact (preds_loop_cons _ _ _ _ _ _ _ _ _ _ _ _ _ _ _ _ Hu Hr Hl)|].
    split.
    { constructor.
      - exists prey_store, k, u, prey1, k1, gain. auto 10.
      - rewrite Hlen in HF. exact HF. }
    split; [eapply kills_trans; eauto|].
    split; [intros i o Hi Ho; apply Hina'; [now apply Hina|exact Ho]|].
    split; [|constructor; [exact Hkept|exact Hk2]].
    simpl. rewrite length_app, plus_INR. lra.
Qed.

(** ** One tick *)

Lemma Forall_filter_bool {A} (P : A -> Prop) (f : A -> bool) l :
  Forall P l -> Forall P (List.filter f l).
Proof.
  induction 1 as [|x l Hx Hl IH]; simpl; [constructor|].
  destruct (f x); [constructor; assumption|assumption].
Qed.

Lemma filter_bool_holds {A} (f : A -> bool) l :
  Forall (fun x => f x = true) (List.filter f l).
Proof.
  induction l as [|x l IH]; simpl; [constructor|].
  destruct (f x) eqn:E; [constructor; assumption|assumption].
Qed.

Lemma alive_spec a : alive a = true <-> active a = true /\ energy a > 0.
Proof.
  unfold alive. rewrite andb_true_iff, Rgtb_true. reflexivity.
Qed.

(** Extinction ends the tick at once: the state becomes [GAMEOVER], no draw
    is used, and the rest is what the pruning left. *)
Lemma step_collapse draws app ticks k :
  extinct app -> step draws app ticks k = Some (with_state (prune app) GAMEOVER, k).
Proof.
  intros [Hp Hd]. unfold step, with_state, prune.
  cbn [food prey preds grid_food grid_prey grid_preds stats_history_prey
       stats_history_pred max_prey max_pred camera running state].
  rewrite Hp, Hd. reflexivity.
Qed.

Lemma regrow_spec draws foods k :
  exists foods1 k1,
    regrow draws foods k = Some (foods1, k1) /\ (k <= k1)%nat /\
    (foods1 = foods \/
     exists f, foods1 = foods ++ [f] /\ active f = true /\ (length foods < 800)%nat).
Proof.
  unfold regrow. destruct (length foods <? 800)%nat eqn:E.
  - apply Nat.ltb_lt in E. unfold bind at 1. unfold random at 1.
    destruct (Rltb (draws k) FOOD_RATE).
    + unfold bind, randint, random, ret. eexists _, _.
      split; [reflexivity|]. split; [lia|]. right. eexists.
      split; [reflexivity|]. split; [reflexivity|exact E].
    + unfold ret. exists foods, (S k). split; [reflexivity|]. split; [lia|auto].
  - unfold ret. exists foods, k. split; [reflexivity|]. split; [lia|auto].
Qed.

Lemma not_extinct_test app :
  ~ extinct app ->
  (length (prey (prune app)) =? 0)%nat && (length (preds (prune app)) =? 0)%nat
  = false.
Proof.
  intros H. apply andb_false_iff. unfold extinct in H. cbn [prune prey preds].
  destruct (List.filter alive (prey app)) as [|x l].
  - destruct (List.filter alive (preds app)) as [|y l'].
    + exfalso. apply H. auto.
    + right. reflexivity.
  - left. reflexivity.
Qed.

(** A tick that does not end in extinction: the regrowth, the pass over the
    prey, the pass over the predators with the newborn prey at the end of the
    prey store, and the statistics. *)
Lemma step_running draws app ticks k :
  wf_app app -> ~ extinct app ->
  let app1 := prune app in
  let gfood := build_grid (map pos (food app1)) in
  let gprey := build_grid (map (fun a : Agent => pos a) (prey app1)) in
  let gpreds := build_grid (map (fun a : Agent => pos a) (preds app1)) in
  exists food1 k1 upd kids food2 k2 dupd dkids prey2 k3 app',
    regrow draws (food app1) k = Some (food1, k1) /\
    prey_loop draws (prey app1) food1 gfood (preds app1) gpreds k1
      = Some ((upd, concat kids, food2), k2) /\
    preds_loop draws (preds app1) (upd ++ concat kids) gprey k2
      = Some ((dupd, concat dkids, prey2), k3) /\
    step draws app ticks k = Some (app', k3) /\
    food app' = food2 /\ prey app' = prey2 /\
    preds app' = dupd ++ concat dkids /\
    state app' = state app /\ running app' = running app /\
    camera app' = camera app /\
    Forall3 (prey_pass_rel draws gfood (preds app1) gpreds (length food1))
            (prey app1) upd kids /\
    Forall3 (pred_pass_rel draws gprey (length (upd ++ concat kids)))
            (preds app1) dupd dkids /\
    kills (length (prey app1)) (upd ++ concat kids) prey2 /\
    Forall2 kept (prey app1) upd /\ Forall2 kept (preds app1) dupd.
Proof.
  intros [Hwp Hwd] Hne app1 gfood gprey gpreds.
  destruct (regrow_spec draws (food app1) k) as (food1 & k1 & Hreg & _ & Hf1).
  assert (Hlen1 : (length (food app1) <= length food1)%nat).
  { destruct Hf1 as [->|(f & -> & _)]; [lia|]. rewrite length_app. simpl. lia. }
  destruct (prey_loop_spec draws (prey app1) food1 gfood (preds app1) gpreds k1)
    as (upd & kids & food2 & k2 & Hpl & HF3 & _ & _ & _ & _ & Hkept).
  { apply Forall_filter_bool. exact Hwp. }
  { eapply grid_bounded_mono; [apply build_grid_bounded|].
    rewrite length_map. exact Hlen1. }
  { pose proof (build_grid_bounded (map (fun a : Agent => pos a) (preds app1))) as H.
    rewrite length_map in H. exact H. }
  assert (Hlu : length upd = length (prey app1)).
  { symmetry. eapply Forall2_length. exact Hkept. }
  destruct (preds_loop_spec draws (preds app1) (upd ++ concat kids) gprey
              (length (prey app1)) k2)
    as (dupd & dkids & prey2 & k3 & Hdl & HD3 & Hkills & _ & _ & Hdkept).
  { apply Forall_filter_bool. exact Hwd. }
  { pose proof (build_grid_bounded (map (fun a : Agent => pos a) (prey app1))) as H.
    rewrite length_map in H. exact H. }
  { rewrite length_app. lia. }
  eexists food1, k1, upd, kids, food2, k2, dupd, dkids, prey2, k3, _.
  split; [exact Hreg|]. split; [exact Hpl|]. split; [exact Hdl|].
  split.
  { unfold step. rewrite (not_extinct_test app Hne). fold app1.
    unfold bind at 1. rewrite Hreg.
    unfold bind at 1. fold gfood gpreds.
    change (grid_register (grid_food app1) 0
              (map pos (food app1))) with gfood.
    change (grid_register (grid_preds app1) 0
              (map (fun a : Agent => pos a) (preds app1))) with gpreds.
    change (grid_register (grid_prey app1) 0
              (map (fun a : Agent => pos a) (prey app1))) with gprey.
    rewrite Hpl. cbn [fst snd].
    unfold bind at 1. rewrite Hdl. cbn [fst snd]. unfold ret. reflexivity. }
  cbn [food prey preds state running camera].
  repeat (split; [reflexivity|]).
  split; [exact HF3|]. split; [exact HD3|]. split; [exact Hkills|].
  split; [exact Hkept|exact Hdkept].
Qed.

(** ** C2 *)

Lemma extinct_dec app : {extinct app} + {~ extinct app}.
Proof.
  unfold extinct.
  destruct (List.filter alive (prey app)) as [|x l];
    destruct (List.filter alive (preds app)) as [|y l'];
    try (left; split; reflexivity); right; intros [H1 H2]; discriminate.
Qed.

(** The stepping code writes [state] only when it finds both populations
    empty. *)
Lemma step_state draws app ticks k app' k' :
  step draws app ticks k = Some (app', k') ->
  (extinct app /\ app' = with_state (prune app) GAMEOVER /\ k' = k) \/
  (~ extinct app /\ state app' = state app).
Proof.
  intros H. destruct (extinct_dec app) as [He|Hne].
  - left. rewrite (step_collapse draws app ticks k He) in H.
    injection H as <- <-. auto.
  - right. split; [exact Hne|].
    unfold step in H. rewrite (not_extinct_test app Hne) in H.
    apply bind_inv in H as (food1 & k1 & _ & H).
    apply bind_inv in H as (pl & k2 & _ & H).
    apply bind_inv in H as (dl & k3 & _ & H).
    unfold ret in H. injection H as <- _. reflexivity.
Qed.

Lemma handle_event_state draws app ev k app1 k1 :
  handle_event draws app ev k = Some (app1, k1) ->
  state app1 = state app \/ (ev = KEYDOWN K_ESCAPE /\ state app1 = GAMEOVER).
Proof.
  destruct ev as [|key|button mouse|]; simpl.
  - unfold ret. intros [= <- _]. auto.
  - destruct key; unfold ret; intros [= <- _]; auto.
  - destruct (button =? 1)%Z.
    + intros H. apply bind_inv in H as (wp & k2 & _ & H).
      apply bind_inv in H as (p & k3 & _ & H).
      unfold ret in H. injection H as <- _. auto.
    + unfold ret. intros [= <- _]. auto.
  - unfold ret. intros [= <- _]. auto.
Qed.

Lemma handle_events_state draws evs app k app1 k1 :
  handle_events draws app evs k = Some (app1, k1) ->
  state app1 = state app \/ (KEYDOWN K_ESCAPE ∈ evs /\ state app1 = GAMEOVER).
Proof.
  revert app k. induction evs as [|ev evs IH]; intros app k; simpl.
  - unfold ret. intros [= <- _]. auto.
  - intros H. apply bind_inv in H as (app0 & k0 & He & H).
    apply handle_event_state in He. apply IH in H.
    destruct H as [H|[Hin H]].
    + destruct He as [He|[-> He]].
      * left. congruence.
      * right. split; [left|congruence].
    + right. split; [now right|exact H].
Qed.


Lemma c2_prey_alive : alive c3_agent = true.
Proof. apply alive_spec. simpl. split; [reflexivity|lra]. Qed.

Lemma c3_agent_wf : wf_dna (dna c3_agent).
Proof.
  exists (35 / 10), (5 / 10), 100. simpl.
  repeat split; try reflexivity; lra.
Qed.



(** ** C9 *)

Lemma Predator_init_eq draws x y d k :
  Predator_init draws x y d k =
  Some (mkAgent (Entity_init x y)
                (mkV (-1 + (1 - -1) * draws k) (-1 + (1 - -1) * draws (S k)))
                vzero (dna_or d PRED_DNA) 300 400
                (0 + (100 - 0) * draws (S (S k))),
        S (S (S k))).
Proof. reflexivity. Qed.

Lemma PRED_DNA_wf : wf_dna PRED_DNA.
Proof.
  exists (42 / 10), (3 / 10), 180. simpl.
  repeat split; try reflexivity; lra.
Qed.

Lemma PREY_DNA_wf : wf_dna PREY_DNA.
Proof.
  exists (35 / 10), (5 / 10), 100. simpl.
  repeat split; try reflexivity; lra.
Qed.

(** A left click appends a predator at the world position of the pointer. *)
Lemma spawn_at_pointer draws app mouse k :
  zoom_level (camera app) <> 0 ->
  exists p app',
    handle_event draws app (MOUSEBUTTONDOWN 1 mouse) k = Some (app', (k + 3)%nat) /\
    preds app' = preds app ++ [p] /\
    pos p = mkV ((vx mouse - vx (offset (camera app))) / zoom_level (camera app))
                ((vy mouse - vy (offset (camera app))) / zoom_level (camera app)).
Proof.
  intros Hz. unfold handle_event. simpl (1 =? 3)%Z. simpl (1 =? 1)%Z. cbv iota.
  unfold bind at 1. unfold lift, unapply, vdiv.
  replace (Reqb (zoom_level (camera app)) 0) with false
    by (symmetry; now apply Reqb_false).
  unfold bind at 1. rewrite Predator_init_eq. unfold ret.
  eexists _, _. split; [repeat f_equal; lia|].
  cbn [preds pos ent vx vy vsub]. split; reflexivity.
Qed.


Lemma zoom_step c t b b' :
  target_zoom c = t -> t <= zoom_level c <= b ->
  9 / 10 * b + 1 / 10 * t <= b' ->
  target_zoom (Camera_update c) = t /\ t <= zoom_level (Camera_update c) <= b'.
Proof.
  intros Ht Hz Hb. unfold Camera_update. simpl. rewrite Ht. split; [reflexivity|].
  lra.
Qed.

Lemma c9_camera_zoom :
  324 / 1000 <= zoom_level c9_camera <= 6153 / 10000.
Proof.
  assert (H0 : target_zoom (toggle_overview Camera_init) = 324 / 1000 /\
               324 / 1000 <= zoom_level (toggle_overview Camera_init) <= 1).
  { unfold toggle_overview, Camera_init. simpl.
    unfold SCREEN_W, SCREEN_H, WORLD_W, WORLD_H.
    rewrite Rmin_right by lra. split; lra. }
  unfold c9_camera. simpl Nat.iter.
  destruct H0 as [Ht H0].
  destruct (zoom_step _ _ _ (9324 / 10000) Ht H0) as [Ht1 H1]; [lra|].
  destruct (zoom_step _ _ _ (8716 / 10000) Ht1 H1) as [Ht2 H2]; [lra|].
  destruct (zoom_step _ _ _ (8169 / 10000) Ht2 H2) as [Ht3 H3]; [lra|].
  destruct (zoom_step _ _ _ (7677 / 10000) Ht3 H3) as [Ht4 H4]; [lra|].
  destruct (zoom_step _ _ _ (7234 / 10000) Ht4 H4) as [Ht5 H5]; [lra|].
  destruct (zoom_step _ _ _ (6835 / 10000) Ht5 H5) as [Ht6 H6]; [lra|].
  destruct (zoom_step _ _ _ (6476 / 10000) Ht6 H6) as [Ht7 H7]; [lra|].
  destruct (zoom_step _ _ _ (6153 / 10000) Ht7 H7) as [Ht8 H8]; [lra|].
  exact H8.
Qed.

Lemma c9_camera_offset :
  vx (offset c9_camera) = - ((WORLD_W * zoom_level c9_camera - SCREEN_W) / 2).
Proof. reflexivity. Qed.



(** ** C1 *)


Lemma meal_empty store' reward gain : meal [] store' reward gain -> gain = 0.
Proof.
  intros [[_ ->]|(r & o & H & _)]; [reflexivity|]. destruct r; discriminate.
Qed.


Lemma c2_app_wf : wf_app c2_app.
Proof. split; simpl; [repeat constructor; exact c3_agent_wf|constructor]. Qed.

Lemma c2_app_not_extinct : ~ extinct c2_app.
Proof. intros [H _]. simpl in H. rewrite c2_prey_alive in H. discriminate. Qed.


(** ** C4 *)

Lemma meal_gain store store' reward gain :
  meal store store' reward gain -> gain = 0 \/ gain = reward.
Proof. intros [[_ ->]|(r & o & _ & _ & _ & ->)]; auto. Qed.

Lemma prey_metabolism_pos p : 5 / 10 <= prey_metabolism p.
Proof.
  unfold prey_metabolism, PREY_METABOLISM.
  pose proof (length_squared_nonneg (vel p)). lra.
Qed.

Lemma pred_metabolism_pos p : 8 / 10 <= pred_metabolism p.
Proof.
  unfold pred_metabolism, PRED_METABOLISM.
  pose proof (length_squared_nonneg (vel p)). lra.
Qed.

Lemma repro_outcome_energy draws init cost u q ks :
  0 <= cost -> repro_outcome draws init cost u q ks ->
  energy q <= energy u /\
  (energy q = energy u - cost /\ energy u > cost + 50 \/
   energy q = energy u /\ energy u <= cost + 50).
Proof.
  intros Hc [(Hgt & -> & _)|(Hle & -> & _)]; simpl; split; lra.
Qed.

(** The energy of a prey through one tick. *)
Lemma prey_energy_course draws p foods gf preds gp k :
  wf_dna (dna p) ->
  grid_bounded gf (length foods) -> grid_bounded gp (length preds) ->
  exists u foods1 k1 q ks k2,
    Prey_update draws p foods gf preds gp k = Some ((u, foods1), k1) /\
    reproduce draws (Prey_init draws) REPRO_COST_PREY u k1 = Some ((q, ks), k2) /\
    (energy u = energy p - prey_metabolism p \/
     energy u = energy p - prey_metabolism p + 50 /\
     energy p - prey_metabolism p < max_energy p) /\
    energy u < energy p + 50 /\
    (energy p <= max_energy p - 50 -> energy u < max_energy p) /\
    energy q <= energy u /\
    (energy p <= 350 -> energy q <= 300) /\
    Forall (fun c => energy c = 150) ks.
Proof.
  intros Hwf Hbf Hbp.
  destruct (prey_body_spec draws p foods gf preds gp k Hwf Hbf Hbp)
    as (u & foods1 & k1 & q & ks & k2 & gain & Hu & Hr & Hm & He & Hlt &
        Hout & Hkids & _).
  pose proof (prey_metabolism_pos p) as Hmet.
  apply meal_gain in Hm.
  assert (Hc : 0 <= REPRO_COST_PREY) by (unfold REPRO_COST_PREY; lra).
  destruct (repro_outcome_energy _ _ _ _ _ _ Hc Hout) as [Hq Hq'].
  unfold REPRO_COST_PREY in *.
  exists u, foods1, k1, q, ks, k2.
  split; [exact Hu|]. split; [exact Hr|].
  split.
  { destruct Hm as [-> | ->]; [left; lra|right]. split; [lra|]. apply Hlt. lra. }
  split; [destruct Hm as [-> | ->]; lra|].
  split; [intros H; destruct Hm as [-> | ->]; lra|].
  split; [exact Hq|].
  split; [|exact Hkids].
  intros H. destruct Hm as [-> | ->]; destruct Hq' as [[? ?]|[? ?]]; lra.
Qed.

(** The energy of a predator through one tick. *)
Lemma pred_energy_course draws p prey_store gprey k :
  wf_dna (dna p) -> grid_bounded gprey (length prey_store) ->
  exists u prey1 k1 q ks k2,
    Predator_update draws p prey_store gprey k = Some ((u, prey1), k1) /\
    reproduce draws (Predator_init draws) REPRO_COST_PRED u k1
      = Some ((q, ks), k2) /\
    (energy u = energy p - pred_metabolism p \/
     energy u = energy p - pred_metabolism p + 120) /\
    energy u < energy p + 120 /\
    energy q <= energy u /\
    (energy p <= 300 -> energy q <= 300) /\
    Forall (fun c => energy c = 300) ks.
Proof.
  intros Hwf Hb.
  destruct (pred_body_spec draws p prey_store gprey (length prey_store) k Hwf Hb)
    as (u & prey1 & k1 & q & ks & k2 & gain & Hu & Hr & Hm & _ & He &
        Hout & Hkids & _); [lia|].
  pose proof (pred_metabolism_pos p) as Hmet.
  apply meal_gain in Hm.
  assert (Hc : 0 <= REPRO_COST_PRED) by (unfold REPRO_COST_PRED; lra).
  destruct (repro_outcome_energy _ _ _ _ _ _ Hc Hout) as [Hq Hq'].
  unfold REPRO_COST_PRED in *.
  exists u, prey1, k1, q, ks, k2.
  split; [exact Hu|]. split; [exact Hr|].
  split; [destruct Hm as [-> | ->]; [left|right]; lra|].
  split; [destruct Hm as [-> | ->]; lra|].
  split; [exact Hq|].
  split; [|exact Hkids].
  intros H. destruct Hm as [-> | ->]; destruct Hq' as [[? ?]|[? ?]]; lra.
Qed.

Lemma prune_keeps app a :
  (In a (prey (prune app)) <-> In a (prey app) /\ active a = true /\ energy a > 0) /\
  (In a (preds (prune app)) <-> In a (preds app) /\ active a = true /\ energy a > 0).
Proof.
  unfold prune. cbn [prey preds].
  rewrite !filter_In, !alive_spec. tauto.
Qed.




(** ** C10 *)

(** A store in which no object became active has no more active objects. *)
Lemma count_active_le (store store' : list Entity) :
  length store' = length store ->
  (forall i o', store' !! i = Some o' ->
     exists o, store !! i = Some o /\ (active o' = true -> active o = true)) ->
  (count_active store' <= count_active store)%nat.
Proof.
  revert store'. induction store as [|x store IH]; intros [|y store'] Hl H;
    try discriminate; [unfold count_active; simpl; lia|].
  rewrite !count_active_cons.
  assert (Hrest : (count_active store' <= count_active store)%nat).
  { apply IH; [simpl in Hl; lia|]. intros i o' Hi. apply (H (S i) o' Hi). }
  destruct (H 0%nat y eq_refl) as (o & Ho & Hact). injection Ho as <-.
  destruct (active y); [rewrite Hact by reflexivity|destruct (active x)]; lia.
Qed.



(** * Further properties of the code *)

(** ** Camera *)

Lemma vector_eq a b : vx a = vx b -> vy a = vy b -> a = b.
Proof. destruct a, b. simpl. now intros -> ->. Qed.

(** X1.  [Camera.apply] and [Camera.unapply] undo each other at any zoom but zero,
    where [unapply] divides by zero. *)
Theorem camera_roundtrip c p :
  (zoom_level c <> 0 ->
   unapply c (Camera_apply c p) = Some p /\
   exists w, unapply c p = Some w /\ Camera_apply c w = p) /\
  (zoom_level c = 0 -> unapply c p = None).
Proof.
  split.
  - intros Hz. unfold unapply, vdiv.
    replace (Reqb (zoom_level c) 0) with false
      by (symmetry; now apply Reqb_false).
    split.
    + f_equal. apply vector_eq; unfold Camera_apply; simpl; field; exact Hz.
    + eexists. split; [reflexivity|].
      apply vector_eq; unfold Camera_apply; simpl; field; exact Hz.
  - intros Hz. unfold unapply, vdiv.
    replace (Reqb (zoom_level c) 0) with true
      by (symmetry; now apply Reqb_true).
    reflexivity.
Qed.



Lemma Camera_update_iter_target n c :
  target_zoom (Nat.iter n Camera_update c) = target_zoom c.
Proof. induction n as [|n IH]; simpl; [reflexivity|exact IH]. Qed.

Lemma Camera_update_iter_zoom n c :
  zoom_level (Nat.iter n Camera_update c) - target_zoom c
  = (9 / 10) ^ n * (zoom_level c - target_zoom c).
Proof.
  induction n as [|n IH]; simpl; [ring|].
  rewrite Camera_update_iter_target.
  replace (zoom_level (Nat.iter n Camera_update c))
    with (target_zoom c + (9 / 10) ^ n * (zoom_level c - target_zoom c)) by lra.
  field.
Qed.

(** X3.  After [n] updates the zoom has covered all but [0.9 ^ n] of its way to
    the target; it stays positive when it started positive with a positive
    target, so [unapply] never divides by zero; and after an update the
    centre of the world shows at the centre of the screen. *)
Theorem camera_update_converges n c :
  zoom_level (Nat.iter n Camera_update c) - target_zoom c
    = (9 / 10) ^ n * (zoom_level c - target_zoom c) /\
  target_zoom (Nat.iter n Camera_update c) = target_zoom c /\
  (0 < zoom_level c -> 0 < target_zoom c ->
   0 < zoom_level (Nat.iter n Camera_update c)) /\
  Camera_apply (Camera_update c) (mkV (WORLD_W / 2) (WORLD_H / 2))
    = mkV (SCREEN_W / 2) (SCREEN_H / 2).
Proof.
  split; [apply Camera_update_iter_zoom|].
  split; [apply Camera_update_iter_target|]. split.
  - intros Hz Ht. pose proof (Camera_update_iter_zoom n c) as H.
    assert (Hp : 0 < (9 / 10) ^ n) by (apply pow_lt; lra).
    assert (Hp1 : (9 / 10) ^ n <= 1).
    { rewrite <- (pow1 n). apply pow_incr. lra. }
    destruct (Rle_dec (target_zoom c) (zoom_level c)) as [Hle|Hgt].
    + assert (0 <= (9 / 10) ^ n * (zoom_level c - target_zoom c))
        by (apply Rmult_le_pos; lra).
      lra.
    + assert ((9 / 10) ^ n * (target_zoom c - zoom_level c)
              <= 1 * (target_zoom c - zoom_level c))
        by (apply Rmult_le_compat_r; lra).
      nra.
  - apply vector_eq; unfold Camera_apply, Camera_update; simpl; field.
Qed.

(** ** Steering and movement *)

Lemma vlength_vscale_abs v k : vlength (vscale v k) = Rabs k * vlength v.
Proof.
  unfold vlength. rewrite length_squared_vscale.
  rewrite sqrt_mult by (try apply length_squared_nonneg; nra).
  f_equal. replace (k * k) with (Rsqr k) by reflexivity. apply sqrt_Rsqr_abs.
Qed.

Lemma steer_bound a target mult force s :
  dna_get "force" (dna a) = Some force -> 0 <= force ->
  steer a target mult = Some s -> vlength s <= force * Rabs mult.
Proof.
  intros Hf Hpos. unfold steer.
  destruct (Reqb (vlength (vsub target (pos a))) 0).
  - intros [= <-]. rewrite vlength_zero.
    apply Rmult_le_pos; [exact Hpos|apply Rabs_pos].
  - destruct (dna_get "speed" (dna a)) as [speed|]; [|discriminate]. simpl.
    destruct (scale_to_length (vsub target (pos a)) speed) as [d1|];
      [|discriminate].
    simpl. rewrite Hf. simpl.
    destruct (Rgtb (vlength (vsub d1 (vel a))) force) eqn:E.
    + destruct (scale_to_length (vsub d1 (vel a)) force) as [s1|] eqn:Es;
        [|discriminate].
      simpl. intros [= <-]. rewrite vlength_vscale_abs.
      rewrite (scale_to_length_length _ _ _ Hpos Es). lra.
    + simpl. intros [= <-]. apply Rgtb_false in E.
      rewrite vlength_vscale_abs. rewrite Rmult_comm.
      apply Rmult_le_compat_r; [apply Rabs_pos|exact E].
Qed.





(** ** More on the grid *)

Lemma get_nearby_add cells (r : nat) p q rad :
  get_nearby (grid_add cells r p) q rad
  ≡ₚ (if decide (in_square (cell_of q) (cell_of p) rad) then [r] else [])
     ++ get_nearby cells q rad.
Proof.
  rewrite !get_nearby_buckets.
  rewrite <- (square_single p r (cell_of q) rad).
  rewrite <- flat_map_app_perm.
  apply flat_map_perm_ext. intros x.
  rewrite <- flat_map_app_perm.
  apply flat_map_perm_ext. intros y.
  rewrite grid_add_bucket. apply Permutation_app_comm.
Qed.

Lemma zrange_empty a b : (b <= a)%Z -> zrange a b = [].
Proof.
  intros H. unfold zrange, seqZ.
  replace (Z.to_nat (b - a)) with 0%nat by lia. reflexivity.
Qed.

Lemma get_nearby_clear q rad : get_nearby grid_clear q rad = [].
Proof.
  rewrite get_nearby_buckets.
  rewrite (flat_map_ext _ (fun _ => [])); [apply flat_map_nil|].
  intros x. rewrite (flat_map_ext _ (fun _ => [])); [apply flat_map_nil|].
  intros y. reflexivity.
Qed.

(** X6.  [add] files the object where a query from its own position finds it, at
    any radius that is not negative, and loses nothing that was there: the
    answer to any query is the old answer plus, when the object's cell is in
    the square, the object, once.  A cleared grid and a negative radius give
    empty answers. *)
Theorem grid_add_query cells (r : nat) p q rad :
  get_nearby (grid_add cells r p) q rad
    ≡ₚ (if decide (in_square (cell_of q) (cell_of p) rad) then [r] else [])
       ++ get_nearby cells q rad /\
  ((0 <= rad)%Z -> r ∈ get_nearby (grid_add cells r p) p rad) /\
  (forall r' : Ref, r' ∈ get_nearby cells q rad ->
                    r' ∈ get_nearby (grid_add cells r p) q rad) /\
  get_nearby grid_clear q rad = [] /\
  ((rad < 0)%Z -> get_nearby cells q rad = []).
Proof.
  split; [apply get_nearby_add|]. split; [|split; [|split]].
  - intros Hr. rewrite get_nearby_add.
    destruct (decide (in_square (cell_of p) (cell_of p) rad)) as [_|Hn].
    + left.
    + exfalso. apply Hn. now apply in_square_same.
  - intros r' Hr'. rewrite get_nearby_add. apply elem_of_app. now right.
  - apply get_nearby_clear.
  - intros Hr. rewrite get_nearby_buckets.
    rewrite (zrange_empty ((cell_of q).1 - rad)) by lia. reflexivity.
Qed.

Lemma floordiv_within x y (n : Z) :
  Rabs (x - y) < IZR n * CELL_SIZE ->
  (floordiv x CELL_SIZE - n <= floordiv y CELL_SIZE <= floordiv x CELL_SIZE + n)%Z.
Proof.
  unfold CELL_SIZE, floordiv. intros H.
  apply Rabs_def2 in H as [H1 H2].
  destruct (base_Int_part (x / 120)) as [Ha1 Ha2].
  destruct (base_Int_part (y / 120)) as [Hb1 Hb2].
  split.
  - apply Z.lt_succ_r. apply lt_IZR. rewrite succ_IZR, minus_IZR. lra.
  - apply Z.lt_succ_r. apply lt_IZR. rewrite succ_IZR, plus_IZR. lra.
Qed.

Lemma within_in_square p q (n : Z) :
  distance_to p q < IZR n * CELL_SIZE -> in_square (cell_of p) (cell_of q) n.
Proof.
  intros H. destruct (distance_axes p q) as [Hx Hy].
  unfold in_square, cell_of. simpl.
  assert (Hx' : Rabs (vx p - vx q) < IZR n * CELL_SIZE)
    by (rewrite Rabs_minus_sym; lra).
  assert (Hy' : Rabs (vy p - vy q) < IZR n * CELL_SIZE)
    by (rewrite Rabs_minus_sym; lra).
  apply floordiv_within in Hx', Hy'. lia.
Qed.



(** ** Behaviour of the agents *)



Lemma patrol_force_length t :
  vlength (vadd vzero (vscale (rotate_rad (mkV 1 0) t) (5 / 10))) = 5 / 10.
Proof.
  apply vlength_of_square; [lra|].
  unfold length_squared, vadd, vscale, rotate_rad, vzero. simpl.
  pose proof (sin2_cos2 t) as H. unfold Rsqr in H. nra.
Qed.





(** ** Seeding *)

Lemma randint_world draws k :
  unit_draws draws ->
  exists x, randint draws 0 2000 k = Some (x, S k) /\ 0 <= x <= 2000.
Proof.
  intros Hu. unfold randint, bind, random, ret.
  eexists. split; [reflexivity|].
  specialize (Hu k).
  change (IZR (2000 - 0 + 1)) with 2001.
  destruct (base_Int_part (draws k * 2001)) as [H1 H2].
  rewrite plus_IZR.
  set (z := Int_part (draws k * 2001)) in *.
  assert (Hz : (0 <= z <= 2000)%Z).
  { split.
    - apply Z.lt_succ_r. apply lt_IZR. rewrite succ_IZR. lra.
    - apply Z.lt_succ_r. apply lt_IZR.
      change (Z.succ 2000) with 2001%Z. lra. }
  destruct Hz as [Hz1 Hz2]. apply IZR_le in Hz1, Hz2. lra.
Qed.

Lemma seed_food_spec draws n k :
  unit_draws draws ->
  exists fs,
    seed_food draws n k = Some (fs, (k + 2 * n)%nat) /\
    length fs = n /\
    Forall (fun f : Food => active f = true /\ in_world (pos f)) fs.
Proof.
  intros Hu. revert k. induction n as [|n IH]; intros k.
  - exists []. simpl. unfold ret. rewrite Nat.add_0_r.
    split; [reflexivity|]. split; [reflexivity|constructor].
  - destruct (randint_world draws k Hu) as (x & Hx & Hxr).
    destruct (randint_world draws (S k) Hu) as (y & Hy & Hyr).
    destruct (IH (S (S k))) as (fs & Hfs & Hlen & Hall).
    exists (Food_init x y :: fs). split; [|split].
    + simpl. unfold bind at 1. rewrite Hx. unfold bind at 1. rewrite Hy.
      unfold bind at 1. rewrite Hfs. unfold ret. do 2 f_equal. lia.
    + simpl. now rewrite Hlen.
    + constructor; [|exact Hall]. simpl. split; [reflexivity|].
      unfold in_world, WORLD_W, WORLD_H. simpl. lra.
Qed.

Lemma Prey_init_eq draws x y d k :
  Prey_init draws x y d k =
  Some (mkAgent (Entity_init x y)
                (mkV (-1 + (1 - -1) * draws k) (-1 + (1 - -1) * draws (S k)))
                vzero (dna_or d PREY_DNA) 150 400
                (0 + (100 - 0) * draws (S (S k))),
        S (S (S k))).
Proof. reflexivity. Qed.

Lemma seed_prey_spec draws n k :
  unit_draws draws ->
  exists ps,
    seed_agents draws (Prey_init draws) n k = Some (ps, (k + 5 * n)%nat) /\
    length ps = n /\ Forall (fresh PREY_DNA 150) ps.
Proof.
  intros Hu. revert k. induction n as [|n IH]; intros k.
  - exists []. simpl. unfold ret. rewrite Nat.add_0_r.
    split; [reflexivity|]. split; [reflexivity|constructor].
  - destruct (randint_world draws k Hu) as (x & Hx & Hxr).
    destruct (randint_world draws (S k) Hu) as (y & Hy & Hyr).
    destruct (IH (S (S (S (S (S k)))))) as (ps & Hps & Hlen & Hall).
    eexists (_ :: ps). split; [|split].
    + simpl. unfold bind at 1. rewrite Hx. unfold bind at 1. rewrite Hy.
      unfold bind at 1. rewrite Prey_init_eq.
      unfold bind at 1. rewrite Hps. unfold ret. do 2 f_equal. lia.
    + simpl. now rewrite Hlen.
    + constructor; [|exact Hall]. unfold fresh. simpl.
      pose proof (Hu (S (S k))). pose proof (Hu (S (S (S k)))).
      unfold in_world, WORLD_W, WORLD_H. simpl.
      repeat split; try reflexivity; lra.
Qed.

Lemma seed_pred_spec draws n k :
  unit_draws draws ->
  exists ps,
    seed_agents draws (Predator_init draws) n k = Some (ps, (k + 5 * n)%nat) /\
    length ps = n /\ Forall (fresh PRED_DNA 300) ps.
Proof.
  intros Hu. revert k. induction n as [|n IH]; intros k.
  - exists []. simpl. unfold ret. rewrite Nat.add_0_r.
    split; [reflexivity|]. split; [reflexivity|constructor].
  - destruct (randint_world draws k Hu) as (x & Hx & Hxr).
    destruct (randint_world draws (S k) Hu) as (y & Hy & Hyr).
    destruct (IH (S (S (S (S (S k)))))) as (ps & Hps & Hlen & Hall).
    eexists (_ :: ps). split; [|split].
    + simpl. unfold bind at 1. rewrite Hx. unfold bind at 1. rewrite Hy.
      unfold bind at 1. rewrite Predator_init_eq.
      unfold bind at 1. rewrite Hps. unfold ret. do 2 f_equal. lia.
    + simpl. now rewrite Hlen.
    + constructor; [|exact Hall]. unfold fresh. simpl.
      pose proof (Hu (S (S k))). pose proof (Hu (S (S (S k)))).
      unfold in_world, WORLD_W, WORLD_H. simpl.
      repeat split; try reflexivity; lra.
Qed.

Lemma fresh_alive d e a : 0 < e -> fresh d e a -> alive a = true.
Proof.
  intros He (Ha & _ & _ & Hen & _). apply alive_spec. split; [exact Ha|lra].
Qed.

Lemma reset_sim_spec draws app k :
  unit_draws draws ->
  exists f p d,
    reset_sim draws app k
      = Some (mkApp f p d grid_clear grid_clear grid_clear [] [] 0 0
                    (camera app) (running app) (state app), (k + 1340)%nat) /\
    length f = 400%nat /\ length p = 100%nat /\ length d = 8%nat /\
    Forall (fun x : Food => active x = true /\ in_world (pos x)) f /\
    Forall (fresh PREY_DNA 150) p /\ Forall (fresh PRED_DNA 300) d.
Proof.
  intros Hu.
  destruct (seed_food_spec draws 400 k Hu) as (f & Hf & Hlf & Haf).
  destruct (seed_prey_spec draws PREY_START (k + 2 * 400) Hu)
    as (p & Hp & Hlp & Hap).
  destruct (seed_pred_spec draws PREDATOR_START (k + 2 * 400 + 5 * PREY_START) Hu)
    as (d & Hd & Hld & Had).
  exists f, p, d. split.
  - unfold reset_sim. unfold bind at 1. rewrite Hf.
    unfold bind at 1. rewrite Hp. unfold bind at 1. rewrite Hd.
    unfold ret, PREY_START, PREDATOR_START. do 2 f_equal. lia.
  - auto 10.
Qed.

(** X11.  [reset_sim] never faults and uses 1340 draws; it leaves 400 active food
    objects, 100 prey with energy 150 and 8 predators with energy 300, all in
    the world with their default genome and a velocity within one unit per
    axis, empty grids and histories and peaks of zero; camera, [running] and
    [state] are not touched.  The state it leaves is well formed and not
    extinct. *)
Theorem reset_sim_seeds draws app k :
  unit_draws draws ->
  exists app',
    reset_sim draws app k = Some (app', (k + 1340)%nat) /\
    length (food app') = 400%nat /\ length (prey app') = 100%nat /\
    length (preds app') = 8%nat /\
    Forall (fun x : Food => active x = true /\ in_world (pos x)) (food app') /\
    Forall (fresh PREY_DNA 150) (prey app') /\
    Forall (fresh PRED_DNA 300) (preds app') /\
    grid_food app' = grid_clear /\ grid_prey app' = grid_clear /\
    grid_preds app' = grid_clear /\
    stats_history_prey app' = [] /\ stats_history_pred app' = [] /\
    max_prey app' = 0%nat /\ max_pred app' = 0%nat /\
    camera app' = camera app /\ running app' = running app /\
    state app' = state app /\
    wf_app app' /\ ~ extinct app' /\ app_in_world app'.
Proof.
  intros Hu.
  destruct (reset_sim_spec draws app k Hu)
    as (f & p & d & Hr & Hlf & Hlp & Hld & Haf & Hap & Had).
  eexists. split; [exact Hr|]. cbn [food prey preds grid_food grid_prey
    grid_preds stats_history_prey stats_history_pred max_prey max_pred camera
    running state].
  repeat (split; [first [assumption|reflexivity]|]).
  split; [|split].
  - split; cbn [prey preds].
    + eapply Forall_impl; [exact Hap|]. intros a (_ & _ & -> & _).
      exact PREY_DNA_wf.
    + eapply Forall_impl; [exact Had|]. intros a (_ & _ & -> & _).
      exact PRED_DNA_wf.
  - intros [He _]. cbn [prey] in He.
    destruct p as [|a p]; [discriminate|].
    inversion Hap as [|? ? Ha _]; subst.
    assert (Hal : alive a = true)
      by (apply (fresh_alive PREY_DNA 150); [lra|exact Ha]).
    simpl in He. rewrite Hal in He. discriminate.
  - split; cbn [prey preds].
    + eapply Forall_impl; [exact Hap|]. intros a (_ & H & _). exact H.
    + eapply Forall_impl; [exact Had|]. intros a (_ & H & _). exact H.
Qed.

Lemma reset_sim_seeds_witness :
  exists app',
    reset_sim half_draws c2_empty 0%nat = Some (app', (0 + 1340)%nat) /\
    length (food app') = 400%nat /\ length (prey app') = 100%nat /\
    length (preds app') = 8%nat /\
    Forall (fun x : Food => active x = true /\ in_world (pos x)) (food app') /\
    Forall (fresh PREY_DNA 150) (prey app') /\
    Forall (fresh PRED_DNA 300) (preds app') /\
    grid_food app' = grid_clear /\ grid_prey app' = grid_clear /\
    grid_preds app' = grid_clear /\
    stats_history_prey app' = [] /\ stats_history_pred app' = [] /\
    max_prey app' = 0%nat /\ max_pred app' = 0%nat /\
    camera app' = camera c2_empty /\ running app' = running c2_empty /\
    state app' = state c2_empty /\
    wf_app app' /\ ~ extinct app' /\ app_in_world app'.
Proof. apply (reset_sim_seeds half_draws c2_empty 0%nat half_draws_unit). Defined.

(** ** What a tick keeps *)

Lemma mutate_dna_get draws d k d' k' key v :
  unit_draws draws -> mutate draws d k = Some (d', k') ->
  dna_get key d = Some v ->
  exists f, 9 / 10 <= f <= 11 / 10 /\ dna_get key d' = Some (v * f).
Proof.
  intros Hu. revert k d' k'.
  induction d as [|[k0 v0] rest IH]; intros k d' k' Hm Hg; [discriminate|].
  simpl in Hm. apply bind_inv in Hm as (u & k1 & Hun & Hm).
  rewrite uniform_eq in Hun. injection Hun as <- <-.
  apply bind_inv in Hm as (rest' & k2 & Hrest & Hm).
  unfold ret in Hm. injection Hm as <- <-.
  simpl in Hg |- *. destruct (String.eqb key k0).
  - injection Hg as ->. eexists. split; [|reflexivity].
    specialize (Hu k). lra.
  - eapply IH; eauto.
Qed.

Lemma wf_dna_mutate draws d k d' k' :
  unit_draws draws -> wf_dna d -> mutate draws d k = Some (d', k') -> wf_dna d'.
Proof.
  intros Hu (sp & fo & se & Hsp & Hfo & Hse & H1 & H2 & H3) Hm.
  destruct (mutate_dna_get _ _ _ _ _ _ _ Hu Hm Hsp) as (f1 & Hf1 & Hg1).
  destruct (mutate_dna_get _ _ _ _ _ _ _ Hu Hm Hfo) as (f2 & Hf2 & Hg2).
  destruct (mutate_dna_get _ _ _ _ _ _ _ Hu Hm Hse) as (f3 & Hf3 & Hg3).
  exists (sp * f1), (fo * f2), (se * f3).
  repeat split; try assumption; nra.
Qed.

Lemma repro_children_sound draws init cost u q ks :
  unit_draws draws -> repro_outcome draws init cost u q ks ->
  sound q -> Forall sound ks.
Proof.
  intros Hu [(_ & -> & child & nd & k1 & k2 & k3 & -> & Hm & _ & Hpos & Hdna & _)
            |(_ & _ & ->)] [Hwf Hw]; [|constructor].
  constructor; [|constructor]. split.
  - rewrite Hdna. eapply wf_dna_mutate; eauto.
  - rewrite Hpos. exact Hw.
Qed.

Lemma pass_sound {Rel : Agent -> Agent -> list Agent -> Prop} draws ps upd kids :
  unit_draws draws ->
  (forall p q ks, Rel p q ks ->
     exists init cost u, repro_outcome draws init cost u q ks) ->
  Forall3 Rel ps upd kids -> Forall2 kept ps upd ->
  Forall (fun p : Agent => wf_dna (dna p)) ps ->
  Forall sound upd /\ Forall sound (concat kids).
Proof.
  intros Hu HRel HF. induction HF as [|p q ks ps upd kids Hr HF IH];
    intros Hk Hwf.
  - split; constructor.
  - inversion Hk as [|? ? ? ? Hkept Hk']; subst.
    inversion Hwf as [|? ? Hp Hwf']; subst.
    destruct (IH Hk' Hwf') as [IH1 IH2].
    assert (Hq : sound q).
    { destruct Hkept as (Hd & Hw & _). split; [rewrite Hd; exact Hp|exact Hw]. }
    destruct (HRel _ _ _ Hr) as (init & cost & u & Hout).
    split; [constructor; assumption|].
    simpl. apply Forall_app. split; [|exact IH2].
    eapply repro_children_sound; eauto.
Qed.

Lemma sound_set_active a : sound a -> sound (set_active a false).
Proof. intros [H1 H2]. split; assumption. Qed.

Lemma Forall_sound_split l :
  Forall sound l <->
  Forall (fun p : Agent => wf_dna (dna p)) l /\
  Forall (fun a : Agent => in_world (pos a)) l.
Proof.
  unfold sound. rewrite Forall_and. reflexivity.
Qed.

(** A tick never faults on a well-formed state, and leaves a well-formed
    state with every agent in the world; camera and [running] are kept; the
    food list grows by at most one object and not beyond 800. *)
Lemma step_safe draws app ticks k :
  unit_draws draws -> wf_app app ->
  exists app' k',
    step draws app ticks k = Some (app', k') /\
    wf_app app' /\ app_in_world app' /\
    camera app' = camera app /\ running app' = running app /\
    (state app' = state app \/ state app' = GAMEOVER) /\
    (length (food app') <= length (food app) + 1)%nat /\
    ((length (food app) <= 800)%nat -> (length (food app') <= 800)%nat).
Proof.
  intros Hu Hwf. destruct (extinct_dec app) as [He|Hne].
  - exists (with_state (prune app) GAMEOVER), k.
    split; [now apply step_collapse|].
    destruct He as [Hp Hd]. destruct Hwf as [Hwp Hwd].
    assert (Hfl : (length (List.filter active (food app)) <= length (food app))%nat)
      by apply filter_length_le.
    unfold wf_app, app_in_world. simpl. rewrite Hp, Hd.
    split; [split; constructor|]. split; [split; constructor|].
    split; [reflexivity|]. split; [reflexivity|]. split; [now right|].
    unfold Food in *. split; lia.
  - pose proof Hwf as [Hwp Hwd].
    set (app1 := prune app).
    set (gfood := build_grid (map pos (food app1))).
    set (gprey := build_grid (map (fun a : Agent => pos a) (prey app1))).
    set (gpreds := build_grid (map (fun a : Agent => pos a) (preds app1))).
    destruct (regrow_spec draws (food app1) k) as (food1 & k1 & Hreg & _ & Hf1).
    assert (Hfl : (length (food app1) <= length (food app))%nat)
      by apply filter_length_le.
    assert (Hlen1 : (length (food app1) <= length food1 <= length (food app) + 1)%nat
                    /\ ((length (food app) <= 800)%nat ->
                        (length food1 <= 800)%nat)).
    { unfold Food in *.
      destruct Hf1 as [->|(f & -> & _ & Hlt)]; [lia|].
      rewrite length_app. cbn [length]. lia. }
    assert (Hwp1 : Forall (fun p : Agent => wf_dna (dna p)) (prey app1))
      by (apply Forall_filter_bool; exact Hwp).
    assert (Hwd1 : Forall (fun p : Agent => wf_dna (dna p)) (preds app1))
      by (apply Forall_filter_bool; exact Hwd).
    destruct (prey_loop_spec draws (prey app1) food1 gfood (preds app1) gpreds k1)
      as (upd & kids & food2 & k2 & Hpl & HF3 & Hlen2 & _ & _ & _ & Hkept);
      [exact Hwp1| | |].
    { eapply grid_bounded_mono; [apply build_grid_bounded|].
      rewrite length_map. unfold Food in *. lia. }
    { pose proof (build_grid_bounded
                    (map (fun a : Agent => pos a) (preds app1))) as H.
      rewrite length_map in H. exact H. }
    assert (Hlu : length upd = length (prey app1)).
    { symmetry. eapply Forall2_length. exact Hkept. }
    destruct (preds_loop_spec draws (preds app1) (upd ++ concat kids) gprey
                (length (prey app1)) k2)
      as (dupd & dkids & prey2 & k3 & Hdl & HD3 & Hkills & _ & _ & Hdkept);
      [exact Hwd1| | |].
    { pose proof (build_grid_bounded
                    (map (fun a : Agent => pos a) (prey app1))) as H.
      rewrite length_map in H. exact H. }
    { rewrite length_app. lia. }
    destruct (pass_sound draws _ _ _ Hu
                (fun p q ks H => match H with
                   | ex_intro _ _ (ex_intro _ _ (ex_intro _ u (ex_intro _ _
                       (ex_intro _ _ (ex_intro _ _
                         (conj _ (conj _ (conj _ (conj _ (conj _ (conj Ho _)))))))))))
                     => ex_intro _ _ (ex_intro _ _ (ex_intro _ u Ho))
                   end) HF3 Hkept Hwp1) as [Hs1 Hs2].
    destruct (pass_sound draws _ _ _ Hu
                (fun p q ks H => match H with
                   | ex_intro _ _ (ex_intro _ _ (ex_intro _ u (ex_intro _ _
                       (ex_intro _ _ (ex_intro _ _
                         (conj _ (conj _ (conj _ (conj _ (conj Ho _))))))))))
                     => ex_intro _ _ (ex_intro _ _ (ex_intro _ u Ho))
                   end) HD3 Hdkept Hwd1) as [Hs3 Hs4].
    assert (Hprey2 : Forall sound prey2).
    { eapply kills_Forall; [apply sound_set_active|exact Hkills|].
      apply Forall_app. split; assumption. }
    assert (Hpreds2 : Forall sound (dupd ++ concat dkids))
      by (apply Forall_app; split; assumption).
    apply Forall_sound_split in Hprey2 as [Hp2a Hp2b].
    apply Forall_sound_split in Hpreds2 as [Hd2a Hd2b].
    eexists _, k3. split.
    { unfold step. rewrite (not_extinct_test app Hne). fold app1.
      unfold bind at 1. rewrite Hreg.
      unfold bind at 1.
      change (grid_register (grid_food app1) 0
                (map pos (food app1))) with gfood.
      change (grid_register (grid_preds app1) 0
                (map (fun a : Agent => pos a) (preds app1))) with gpreds.
      change (grid_register (grid_prey app1) 0
                (map (fun a : Agent => pos a) (prey app1))) with gprey.
      rewrite Hpl. cbn [fst snd].
      unfold bind at 1. rewrite Hdl. cbn [fst snd]. unfold ret. reflexivity. }
    unfold wf_app, app_in_world.
    cbn [food prey preds state running camera].
    unfold Food in *.
    split; [split; assumption|]. split; [split; assumption|].
    split; [reflexivity|]. split; [reflexivity|]. split; [left; reflexivity|].
    split; lia.
Qed.

(** ** Events and frames *)

Lemma toggle_overview_ok c : cam_ok c -> cam_ok (toggle_overview c).
Proof.
  intros [Hz Ht]. unfold toggle_overview, cam_ok.
  destruct (negb (overview_mode c)); simpl; [|lra].
  unfold SCREEN_W, SCREEN_H, WORLD_W, WORLD_H. rewrite Rmin_right by lra. lra.
Qed.

Lemma Camera_update_ok c : cam_ok c -> cam_ok (Camera_update c).
Proof. intros [Hz Ht]. unfold Camera_update, cam_ok. simpl. lra. Qed.

Lemma handle_event_safe draws app ev k :
  wf_app app -> cam_ok (camera app) ->
  exists app1 k1,
    handle_event draws app ev k = Some (app1, k1) /\
    wf_app app1 /\ cam_ok (camera app1) /\ food app1 = food app /\
    prey app1 = prey app.
Proof.
  intros Hwf Hc. destruct ev as [|key|button mouse|]; simpl.
  - unfold ret. eexists _, _. split; [reflexivity|]. auto.
  - destruct key; unfold ret; eexists _, _; (split; [reflexivity|]); auto.
  - set (cam := if (button =? 3)%Z then toggle_overview (camera app)
                else camera app).
    assert (Hcam : cam_ok cam).
    { unfold cam. destruct (button =? 3)%Z; [now apply toggle_overview_ok|exact Hc]. }
    destruct (button =? 1)%Z.
    + unfold bind at 1. unfold lift, unapply, vdiv.
      replace (Reqb (zoom_level cam) 0) with false
        by (symmetry; apply Reqb_false; destruct Hcam; lra).
      unfold bind at 1. rewrite Predator_init_eq. unfold ret.
      eexists _, _. split; [reflexivity|].
      destruct Hwf as [Hp Hd]. unfold wf_app. simpl.
      repeat split; try assumption; try apply Hcam.
      apply Forall_app. split; [exact Hd|].
      constructor; [exact PRED_DNA_wf|constructor].
    + unfold ret. eexists _, _. split; [reflexivity|].
      destruct Hwf as [Hp Hd]. unfold wf_app. simpl.
      repeat split; try assumption; apply Hcam.
  - unfold ret. eexists _, _. split; [reflexivity|]. auto.
Qed.

Lemma handle_events_safe draws evs app k :
  wf_app app -> cam_ok (camera app) ->
  exists app1 k1,
    handle_events draws app evs k = Some (app1, k1) /\
    wf_app app1 /\ cam_ok (camera app1) /\ food app1 = food app /\
    prey app1 = prey app.
Proof.
  revert app k. induction evs as [|ev evs IH]; intros app k Hwf Hc; simpl.
  - unfold ret. eexists _, _. split; [reflexivity|]. auto.
  - destruct (handle_event_safe draws app ev k Hwf Hc)
      as (app0 & k0 & He & Hwf0 & Hc0 & Hf0 & Hp0).
    destruct (IH app0 k0 Hwf0 Hc0) as (app1 & k1 & H1 & Hwf1 & Hc1 & Hf1 & Hp1).
    exists app1, k1. unfold bind. rewrite He.
    split; [exact H1|]. repeat split; try apply Hwf1; try apply Hc1; congruence.
Qed.

Lemma run_sim_logic_safe draws app evs ticks k :
  unit_draws draws -> wf_app app -> cam_ok (camera app) ->
  exists app' k',
    run_sim_logic draws app evs ticks k = Some (app', k') /\
    app_ok app' /\
    (state app' = state app \/ state app' = GAMEOVER) /\
    (length (food app') <= length (food app) + 1)%nat /\
    ((length (food app) <= 800)%nat -> (length (food app') <= 800)%nat).
Proof.
  intros Hu Hwf Hc.
  destruct (handle_events_safe draws evs app k Hwf Hc)
    as (app1 & k1 & He & Hwf1 & Hc1 & Hf1 & _).
  set (app2 := mkApp (food app1) (prey app1) (preds app1) (grid_food app1)
                 (grid_prey app1) (grid_preds app1) (stats_history_prey app1)
                 (stats_history_pred app1) (max_prey app1) (max_pred app1)
                 (Camera_update (camera app1)) (running app1) (state app1)).
  destruct (step_safe draws app2 ticks k1 Hu)
    as (app' & k' & Hs & Hwf' & Hw' & Hcam & _ & Hst & Hfl & Hcap).
  { exact Hwf1. }
  exists app', k'. split.
  { unfold run_sim_logic. unfold bind. rewrite He. exact Hs. }
  split.
  { split; [exact Hwf'|]. split; [exact Hw'|].
    rewrite Hcam. simpl. now apply Camera_update_ok. }
  simpl in Hst, Hfl, Hcap. rewrite Hf1 in Hfl, Hcap.
  split; [|split; assumption].
  destruct (handle_events_state _ _ _ _ _ _ He) as [H|[_ H]];
    destruct Hst as [Hst|Hst]; rewrite ?H in Hst; auto.
Qed.


Lemma c9_camera_ok : cam_ok c9_camera.
Proof.
  pose proof c9_camera_zoom as Hz. split; [lra|].
  unfold c9_camera. rewrite Camera_update_iter_target.
  unfold toggle_overview, Camera_init. simpl.
  unfold SCREEN_W, SCREEN_H, WORLD_W, WORLD_H. rewrite Rmin_right by lra. lra.
Qed.


(** *** The screens *)

Lemma reset_event draws app k :
  unit_draws draws ->
  exists app1 k1,
    (app0 <~ reset_sim draws app ;; ret (with_state app0 SIM))%M k
      = Some (app1, k1) /\
    seeded app1 /\ state app1 = SIM /\ running app1 = running app /\
    camera app1 = camera app /\ wf_app app1 /\ app_in_world app1.
Proof.
  intros Hu.
  destruct (reset_sim_spec draws app k Hu)
    as (f & p & d & Hr & Hlf & Hlp & Hld & Haf & Hap & Had).
  eexists _, _. unfold bind. rewrite Hr. unfold ret. split; [reflexivity|].
  unfold seeded, wf_app, app_in_world, with_state. simpl.
  repeat split; try assumption; try reflexivity.
  - eapply Forall_impl; [exact Hap|]. intros a (_ & _ & -> & _).
    exact PREY_DNA_wf.
  - eapply Forall_impl; [exact Had|]. intros a (_ & _ & -> & _).
    exact PRED_DNA_wf.
  - eapply Forall_impl; [exact Hap|]. intros a (_ & H & _). exact H.
  - eapply Forall_impl; [exact Had|]. intros a (_ & H & _). exact H.
Qed.

Lemma Event_is_space ev : ev = KEYDOWN K_SPACE \/ ev <> KEYDOWN K_SPACE.
Proof.
  destruct ev as [|[]| |]; try (right; discriminate). now left.
Qed.

Lemma decide_space_in (evs : list Event) :
  KEYDOWN K_SPACE ∈ evs \/ KEYDOWN K_SPACE ∉ evs.
Proof.
  induction evs as [|ev evs IH]; [right; intros H; inversion H|].
  destruct (Event_is_space ev) as [->|Hne]; [left; left|].
  destruct IH as [H|H]; [left; now right|right].
  intros Hin. apply elem_of_cons in Hin as [Heq|Hin]; [congruence|contradiction].
Qed.

Lemma seeded_same app app' : same_world app app' -> seeded app -> seeded app'.
Proof.
  unfold same_world, seeded.
  intros (-> & -> & -> & -> & -> & -> & ->). auto.
Qed.

Lemma same_world_trans a b c : same_world a b -> same_world b c -> same_world a c.
Proof.
  unfold same_world. intros (? & ? & ? & ? & ? & ? & ?) (? & ? & ? & ? & ? & ? & ?).
  repeat split; congruence.
Qed.

(** What a screen loop leaves, for a handler that resets on the space bar,
    stops on the events [quits] and ignores the rest. *)
Lemma screen_loop draws (handler : SimulationApp -> Event -> M SimulationApp)
    (quits : Event -> Prop) evs app k :
  unit_draws draws ->
  ~ quits (KEYDOWN K_SPACE) ->
  (forall a j, handler a (KEYDOWN K_SPACE) j
               = (app0 <~ reset_sim draws a ;; ret (with_state app0 SIM))%M j) ->
  (forall a ev j, quits ev -> handler a ev j = Some (with_running a false, j)) ->
  (forall a ev j, ~ quits ev -> ev <> KEYDOWN K_SPACE ->
                  handler a ev j = Some (a, j)) ->
  (forall ev, quits ev \/ ~ quits ev) ->
  app_ok app ->
  exists app' k',
    for_events handler app evs k = Some (app', k') /\
    app_ok app' /\ camera app' = camera app /\
    (KEYDOWN K_SPACE ∈ evs -> state app' = SIM /\ seeded app') /\
    (KEYDOWN K_SPACE ∉ evs ->
     state app' = state app /\ same_world app app' /\ k' = k) /\
    ((exists ev, ev ∈ evs /\ quits ev) -> running app' = false) /\
    (running app = false -> running app' = false) /\
    ((forall ev, ev ∈ evs -> ~ quits ev) -> running app' = running app).
Proof.
  intros Hu Hns Hsp Hq Hother Hdec.
  revert app k. induction evs as [|ev evs IH]; intros app k Hok.
  - exists app, k. simpl. unfold ret. split; [reflexivity|].
    split; [exact Hok|]. split; [reflexivity|].
    split; [intros H; inversion H|].
    split; [intros _; unfold same_world; auto 10|].
    split; [intros (ev & H & _); inversion H|]. auto.
  - assert (Hstep : exists app0 k0,
      handler app ev k = Some (app0, k0) /\ app_ok app0 /\
      camera app0 = camera app /\
      (ev = KEYDOWN K_SPACE -> state app0 = SIM /\ seeded app0 /\
                               running app0 = running app) /\
      (ev <> KEYDOWN K_SPACE ->
       state app0 = state app /\ same_world app app0 /\ k0 = k /\
       (quits ev -> running app0 = false) /\
       (~ quits ev -> running app0 = running app)) /\
      (running app = false -> running app0 = false)).
    { destruct Hok as (Hwf & Hw & Hc).
      destruct (Event_is_space ev) as [->|Hne].
      - destruct (reset_event draws app k Hu)
          as (app0 & k0 & Hr & Hseed & Hst & Hrun & Hcam & Hwf0 & Hw0).
        exists app0, k0. rewrite Hsp.
        split; [exact Hr|]. split; [split; [exact Hwf0|split; [exact Hw0|]]|].
        { now rewrite Hcam. }
        split; [exact Hcam|]. split; [auto|]. split; [congruence|].
        intros H. now rewrite Hrun.
      - destruct (Hdec ev) as [Hqe|Hnq].
        + exists (with_running app false), k. rewrite (Hq _ _ _ Hqe).
          split; [reflexivity|]. split; [split; [|split]; assumption|].
          split; [reflexivity|]. split; [congruence|].
          split; [|auto]. intros _. unfold same_world. simpl.
          repeat split; auto. intros; contradiction.
        + exists app, k. rewrite (Hother _ _ _ Hnq Hne).
          split; [reflexivity|]. split; [split; [|split]; assumption|].
          split; [reflexivity|]. split; [congruence|].
          split; [|auto]. intros _. unfold same_world.
          repeat split; auto. intros; contradiction. }
    destruct Hstep as (app0 & k0 & Hh & Hok0 & Hcam0 & Hspace & Hnsp & Hrun0).
    destruct (IH app0 k0 Hok0)
      as (app' & k' & Hf & Hok' & Hcam' & Hs' & Hn' & Hq' & Hr' & Hk').
    exists app', k'. simpl. unfold bind. rewrite Hh.
    split; [exact Hf|]. split; [exact Hok'|]. split; [congruence|].
    destruct (Event_is_space ev) as [->|Hne].
    + destruct (Hspace eq_refl) as (Hst0 & Hseed0 & Hrn0).
      split.
      { intros _. destruct (decide_space_in evs) as [Hin|Hnin].
        - apply Hs'. exact Hin.
        - destruct (Hn' Hnin) as (Hst & Hsame & _).
          split; [congruence|]. now apply (seeded_same app0). }
      split; [intros Hn; exfalso; apply Hn; left|].
      split.
      { intros (e & He & Hqe). apply elem_of_cons in He as [->|He];
          [contradiction|]. apply Hq'. eauto. }
      split; [auto|].
      intros Hall. rewrite Hk', Hrn0; [reflexivity|].
      intros e He. apply Hall. now right.
    + destruct (Hnsp Hne) as (Hst0 & Hsame0 & Hk0 & Hqr & Hnqr).
      split.
      { intros Hin. apply elem_of_cons in Hin as [Heq|Hin];
          [congruence|]. now apply Hs'. }
      split.
      { intros Hnin. destruct Hn' as (Hst & Hsame & Hkk).
        - intros Hin. apply Hnin. now right.
        - split; [congruence|]. split; [|congruence].
          now apply (same_world_trans app app0 app'). }
      split.
      { intros (e & He & Hqe). apply elem_of_cons in He as [->|He].
        - apply Hr'. now apply Hqr.
        - apply Hq'. eauto. }
      split; [auto|].
      intros Hall. rewrite Hk'; [apply Hnqr; apply Hall; left|].
      intros e He. apply Hall. now right.
Qed.

Lemma c2_app_ok : app_ok c2_app.
Proof.
  split; [exact c2_app_wf|]. split.
  - split; simpl; [|constructor]. constructor; [|constructor].
    unfold in_world, WORLD_W, WORLD_H. simpl. lra.
  - unfold cam_ok. simpl. lra.
Qed.

(** X16.  The game-over screen never faults.  The space bar among the events of a
    frame starts a new simulation: state [SIM], 400 food objects, 100 prey,
    8 predators, empty histories and peaks at zero, whatever else the frame
    holds.  Without it the screen keeps the state, the populations and the
    statistics, and consumes no draw.  [QUIT] or the escape key clear
    [running]; nothing else writes it. *)
Theorem screen_gameover_transitions draws app evs k :
  unit_draws draws -> app_ok app ->
  exists app' k',
    screen_gameover draws app evs k = Some (app', k') /\
    app_ok app' /\
    (KEYDOWN K_SPACE ∈ evs -> state app' = SIM /\ seeded app') /\
    (KEYDOWN K_SPACE ∉ evs ->
     state app' = state app /\ same_world app app' /\ k' = k) /\
    (QUIT ∈ evs \/ KEYDOWN K_ESCAPE ∈ evs -> running app' = false) /\
    (QUIT ∉ evs -> KEYDOWN K_ESCAPE ∉ evs -> running app' = running app).
Proof.
  intros Hu Hok.
  destruct (screen_loop draws (gameover_event draws)
              (fun ev => ev = QUIT \/ ev = KEYDOWN K_ESCAPE) evs app k Hu)
    as (app' & k' & Hf & Hok' & _ & Hs & Hn & Hq & _ & Hk); try exact Hok.
  - intros [H|H]; discriminate.
  - reflexivity.
  - intros a ev j [-> | ->]; reflexivity.
  - intros a ev j Hnq Hne.
    destruct ev as [|[]| |]; try reflexivity; exfalso; auto.
  - intros ev. destruct ev as [|[]| |]; auto;
      right; intros [H|H]; discriminate.
  - exists app', k'. split; [exact Hf|]. split; [exact Hok'|].
    split; [exact Hs|]. split; [exact Hn|]. split.
    + intros [H|H]; apply Hq; eauto.
    + intros H1 H2. apply Hk. intros ev Hin [-> | ->]; contradiction.
Qed.

Lemma screen_gameover_transitions_witness :
  exists app' k',
    screen_gameover half_draws (with_state c2_app GAMEOVER)
      [KEYDOWN K_OTHER; KEYDOWN K_SPACE; QUIT] 0%nat = Some (app', k') /\
    app_ok app' /\
    (KEYDOWN K_SPACE ∈ [KEYDOWN K_OTHER; KEYDOWN K_SPACE; QUIT] ->
     state app' = SIM /\ seeded app') /\
    (KEYDOWN K_SPACE ∉ [KEYDOWN K_OTHER; KEYDOWN K_SPACE; QUIT] ->
     state app' = state (with_state c2_app GAMEOVER) /\
     same_world (with_state c2_app GAMEOVER) app' /\ k' = 0%nat) /\
    (QUIT ∈ [KEYDOWN K_OTHER; KEYDOWN K_SPACE; QUIT] \/
     KEYDOWN K_ESCAPE ∈ [KEYDOWN K_OTHER; KEYDOWN K_SPACE; QUIT] ->
     running app' = false) /\
    (QUIT ∉ [KEYDOWN K_OTHER; KEYDOWN K_SPACE; QUIT] ->
     KEYDOWN K_ESCAPE ∉ [KEYDOWN K_OTHER; KEYDOWN K_SPACE; QUIT] ->
     running app' = running (with_state c2_app GAMEOVER)).
Proof.
  apply (screen_gameover_transitions half_draws (with_state c2_app GAMEOVER)
           [KEYDOWN K_OTHER; KEYDOWN K_SPACE; QUIT] 0%nat).
  - exact half_draws_unit.
  - exact c2_app_ok.
Defined.

(** X15.  The intro screen never faults.  The space bar among the events of a
    frame starts the simulation on freshly seeded populations; without it
    the screen keeps the state, the populations and the statistics.  Only
    [QUIT] clears [running]: the escape key does nothing on this screen. *)
Theorem screen_intro_transitions draws app evs k :
  unit_draws draws -> app_ok app ->
  exists app' k',
    screen_intro draws app evs k = Some (app', k') /\
    app_ok app' /\
    (KEYDOWN K_SPACE ∈ evs -> state app' = SIM /\ seeded app') /\
    (KEYDOWN K_SPACE ∉ evs ->
     state app' = state app /\ same_world app app' /\ k' = k) /\
    (QUIT ∈ evs -> running app' = false) /\
    (QUIT ∉ evs -> running app' = running app).
Proof.
  intros Hu Hok.
  destruct (screen_loop draws (intro_event draws)
              (fun ev => ev = QUIT) evs app k Hu)
    as (app' & k' & Hf & Hok' & _ & Hs & Hn & Hq & _ & Hk); try exact Hok.
  - discriminate.
  - reflexivity.
  - intros a ev j ->. reflexivity.
  - intros a ev j Hnq Hne.
    destruct ev as [|[]| |]; try reflexivity; exfalso; auto.
  - intros ev. destruct ev as [|[]| |]; auto; right; discriminate.
  - exists app', k'. split; [exact Hf|]. split; [exact Hok'|].
    split; [exact Hs|]. split; [exact Hn|]. split.
    + intros H. apply Hq. eauto.
    + intros H1. apply Hk. intros ev Hin ->. contradiction.
Qed.

Lemma screen_intro_transitions_witness :
  exists app' k',
    screen_intro half_draws (with_state c2_app INTRO)
      [KEYDOWN K_ESCAPE; KEYDOWN K_SPACE] 0%nat = Some (app', k') /\
    app_ok app' /\
    (KEYDOWN K_SPACE ∈ [KEYDOWN K_ESCAPE; KEYDOWN K_SPACE] ->
     state app' = SIM /\ seeded app') /\
    (KEYDOWN K_SPACE ∉ [KEYDOWN K_ESCAPE; KEYDOWN K_SPACE] ->
     state app' = state (with_state c2_app INTRO) /\
     same_world (with_state c2_app INTRO) app' /\ k' = 0%nat) /\
    (QUIT ∈ [KEYDOWN K_ESCAPE; KEYDOWN K_SPACE] -> running app' = false) /\
    (QUIT ∉ [KEYDOWN K_ESCAPE; KEYDOWN K_SPACE] ->
     running app' = running (with_state c2_app INTRO)).
Proof.
  apply (screen_intro_transitions half_draws (with_state c2_app INTRO)
           [KEYDOWN K_ESCAPE; KEYDOWN K_SPACE] 0%nat).
  - exact half_draws_unit.
  - exact c2_app_ok.
Defined.

(** *** The main loop *)

Lemma screen_state (handler : SimulationApp -> Event -> M SimulationApp)
    evs app k app' k' :
  (forall a ev j a' j', handler a ev j = Some (a', j') ->
                        state a' = state a \/ state a' = SIM) ->
  for_events handler app evs k = Some (app', k') ->
  state app' = state app \/ state app' = SIM.
Proof.
  intros Hh. revert app k. induction evs as [|ev evs IH]; intros app k H.
  - injection H as <- _. now left.
  - simpl in H. apply bind_inv in H as (a0 & k0 & H0 & H).
    destruct (IH _ _ H) as [H1|H1]; [|now right].
    rewrite H1. exact (Hh _ _ _ _ _ H0).
Qed.

Lemma reset_state draws a j a' j' :
  (app0 <~ reset_sim draws a ;; ret (with_state app0 SIM))%M j = Some (a', j') ->
  state a' = SIM.
Proof.
  intros H. apply bind_inv in H as (a0 & k0 & _ & H).
  injection H as <- _. reflexivity.
Qed.

Lemma intro_event_state draws a ev j a' j' :
  intro_event draws a ev j = Some (a', j') ->
  state a' = state a \/ state a' = SIM.
Proof.
  destruct ev as [|[]| |]; simpl; intros H;
    try (injection H as <- _; now left).
  right. exact (reset_state _ _ _ _ _ H).
Qed.

Lemma gameover_event_state draws a ev j a' j' :
  gameover_event draws a ev j = Some (a', j') ->
  state a' = state a \/ state a' = SIM.
Proof.
  destruct ev as [|[]| |]; simpl; intros H;
    try (injection H as <- _; now left).
  right. exact (reset_state _ _ _ _ _ H).
Qed.

Lemma frame_safe draws app evs ticks k :
  unit_draws draws -> app_ok app ->
  exists app' k',
    frame draws app evs ticks k = Some (app', k') /\ app_ok app' /\
    (state app <> INTRO -> state app' <> INTRO).
Proof.
  intros Hu Hok. unfold frame. destruct (state app) eqn:Est.
  - destruct (screen_loop draws (intro_event draws)
                (fun ev => ev = QUIT) evs app k Hu)
      as (app' & k' & Hf & Hok' & _); try exact Hok.
    + discriminate.
    + reflexivity.
    + intros a ev j ->. reflexivity.
    + intros a ev j Hnq Hne.
      destruct ev as [|[]| |]; try reflexivity; exfalso; auto.
    + intros ev. destruct ev as [|[]| |]; auto; right; discriminate.
    + exists app', k'. split; [exact Hf|]. split; [exact Hok'|]. congruence.
  - destruct Hok as (Hwf & _ & Hc).
    destruct (run_sim_logic_safe draws app evs ticks k Hu Hwf Hc)
      as (app' & k' & Hr & Hok' & Hst & _).
    exists app', k'. split; [exact Hr|]. split; [exact Hok'|].
    intros _. destruct Hst as [H|H]; rewrite H, ?Est; discriminate.
  - destruct (screen_loop draws (gameover_event draws)
                (fun ev => ev = QUIT \/ ev = KEYDOWN K_ESCAPE) evs app k Hu)
      as (app' & k' & Hf & Hok' & _); try exact Hok.
    + intros [H|H]; discriminate.
    + reflexivity.
    + intros a ev j [-> | ->]; reflexivity.
    + intros a ev j Hnq Hne.
      destruct ev as [|[]| |]; try reflexivity; exfalso; auto.
    + intros ev. destruct ev as [|[]| |]; auto;
        right; intros [H|H]; discriminate.
    + exists app', k'. split; [exact Hf|]. split; [exact Hok'|].
      intros _.
      destruct (screen_state _ _ _ _ _ _
                  (gameover_event_state draws) Hf) as [H|H];
        rewrite H, ?Est; discriminate.
Qed.



(** ** Statistics and the chart *)

Lemma deque_append_length d x :
  length (deque_append d x) = Nat.min (S (length d)) (Nat.max 200 (length d)).
Proof.
  unfold deque_append. cbn zeta.
  destruct (200 <? length (d ++ [x]))%nat eqn:E.
  - apply Nat.ltb_lt in E. rewrite length_app in E. cbn [length] in E.
    destruct d as [|a d]; [cbn [length] in E; lia|].
    cbn [app tail length] in *. rewrite length_app. cbn [length]. lia.
  - apply Nat.ltb_ge in E. rewrite length_app in *. cbn [length] in *. lia.
Qed.

Lemma deque_append_last d x : last (deque_append d x) = Some x.
Proof.
  unfold deque_append. cbn zeta.
  destruct (200 <? length (d ++ [x]))%nat eqn:E.
  - apply Nat.ltb_lt in E. rewrite length_app in E. cbn [length] in E.
    destruct d as [|a d]; [cbn [length] in E; lia|].
    cbn [app tail]. apply last_snoc.
  - apply last_snoc.
Qed.

Lemma step_stats draws app ticks k app' k' :
  step draws app ticks k = Some (app', k') -> ~ extinct app ->
  max_prey app' = Nat.max (max_prey app) (length (prey app')) /\
  max_pred app' = Nat.max (max_pred app) (length (preds app')) /\
  stats_history_prey app' =
    (if (ticks mod 10 =? 0)%Z
     then deque_append (stats_history_prey app) (length (prey app'))
     else stats_history_prey app) /\
  stats_history_pred app' =
    (if (ticks mod 10 =? 0)%Z
     then deque_append (stats_history_pred app) (length (preds app'))
     else stats_history_pred app).
Proof.
  intros H Hne. unfold step in H. rewrite (not_extinct_test app Hne) in H.
  apply bind_inv in H as (food1 & k1 & _ & H).
  apply bind_inv in H as (pl & k2 & _ & H).
  apply bind_inv in H as (dl & k3 & _ & H).
  injection H as <- _. simpl. auto.
Qed.



Lemma fold_max_ge l : forall x, (x <= fold_left Nat.max l x)%nat /\
  Forall (fun v => (v <= fold_left Nat.max l x)%nat) l.
Proof.
  induction l as [|a l IH]; intros x; simpl; [split; [lia|constructor]|].
  destruct (IH (Nat.max x a)) as [H1 H2]. split; [lia|].
  constructor; [lia|exact H2].
Qed.

Lemma py_max_ge data m :
  py_max data = Some m -> Forall (fun v => (v <= m)%nat) data.
Proof.
  destruct data as [|x l]; [discriminate|]. intros [= <-].
  destruct (fold_max_ge l x) as [H1 H2]. constructor; assumption.
Qed.

Lemma get_pts_from_length x data mv :
  length (get_pts_from x data mv) = length data.
Proof. revert x. induction data; intros x; simpl; auto. Qed.

Lemma get_pts_from_in_graph data : forall x mv,
  (x + length data <= 200)%nat -> (1 <= mv)%nat ->
  Forall (fun v => (v <= mv)%nat) data ->
  Forall in_graph (get_pts_from x data mv).
Proof.
  induction data as [|v data IH]; intros x mv Hx Hmv Hall; simpl;
    [constructor|].
  inversion Hall as [|? ? Hv Hrest]; subst. simpl in Hx.
  constructor; [|apply IH; [lia|exact Hmv|exact Hrest]].
  assert (Hxr : 0 <= INR x <= 200).
  { split; [apply pos_INR|]. replace 200 with (INR 200) by (simpl; lra).
    apply le_INR. lia. }
  assert (Hm : 1 <= INR mv).
  { replace 1 with (INR 1) by reflexivity. apply le_INR. exact Hmv. }
  assert (Hvr : 0 <= INR v <= INR mv).
  { split; [apply pos_INR|apply le_INR; exact Hv]. }
  assert (Hq : 0 <= INR v / INR mv <= 1).
  { split.
    - apply Rmult_le_pos; [lra|]. left. apply Rinv_0_lt_compat. lra.
    - apply Rmult_le_reg_r with (INR mv); [lra|].
      unfold Rdiv. rewrite Rmult_assoc, Rinv_l by lra. lra. }
  unfold in_graph. simpl. lra.
Qed.

(** X18.  The chart of the HUD on histories of one length with at most 200
    samples: it never faults; with at most two samples nothing is drawn;
    else each curve has one point per sample, and every point lies in the
    rectangle of the graph, [20 <= x <= 280] and [80 <= y <= 140]. *)
Theorem chart_in_graph app :
  stats_ok app ->
  exists r, chart app = Some r /\
    match r with
    | None => (length (stats_history_prey app) <= 2)%nat
    | Some (pp, pd) =>
        (2 < length (stats_history_prey app))%nat /\
        length pp = length (stats_history_prey app) /\
        length pd = length (stats_history_pred app) /\
        Forall in_graph pp /\ Forall in_graph pd
    end.
Proof.
  intros [Hal Hcap]. unfold chart.
  destruct (2 <? length (stats_history_prey app))%nat eqn:E.
  - apply Nat.ltb_lt in E.
    destruct (py_max (stats_history_prey app)) as [mp|] eqn:Ep;
      [|destruct (stats_history_prey app); [simpl in E; lia|discriminate]].
    destruct (py_max (stats_history_pred app)) as [md|] eqn:Ed;
      [|destruct (stats_history_pred app); [simpl in Hal; lia|discriminate]].
    simpl. eexists. split; [reflexivity|]. simpl.
    split; [exact E|]. unfold get_pts. rewrite !get_pts_from_length.
    split; [reflexivity|]. split; [reflexivity|].
    split; apply get_pts_from_in_graph; try lia.
    + eapply Forall_impl; [exact (py_max_ge _ _ Ep)|]. simpl. intros; lia.
    + eapply Forall_impl; [exact (py_max_ge _ _ Ed)|]. simpl. intros; lia.
  - apply Nat.ltb_ge in E. exists None. split; [reflexivity|exact E].
Qed.

Lemma chart_in_graph_witness :
  exists r, chart hud_app = Some r /\
    match r with
    | None => (length (stats_history_prey hud_app) <= 2)%nat
    | Some (pp, pd) =>
        (2 < length (stats_history_prey hud_app))%nat /\
        length pp = length (stats_history_prey hud_app) /\
        length pd = length (stats_history_pred hud_app) /\
        Forall in_graph pp /\ Forall in_graph pd
    end.
Proof.
  apply (chart_in_graph hud_app).
  split; [reflexivity|]. cbn [hud_app stats_history_prey length]. lia.
Defined.

(** ** The input loop of the simulation *)

Lemma handle_event_effects draws app ev k :
  zoom_level (camera app) <> 0 ->
  exists app1 spawned,
    handle_event draws app ev k = Some (app1, (k + 3 * length spawned)%nat) /\
    food app1 = food app /\ prey app1 = prey app /\
    preds app1 = preds app ++ spawned /\
    length spawned = (if is_click 1 ev then 1 else 0)%nat /\
    Forall spawned_predator spawned /\
    zoom_level (camera app1) = zoom_level (camera app) /\
    overview_mode (camera app1)
      = xorb (is_click 3 ev) (overview_mode (camera app)) /\
    running app1 = (if is_quit ev then false else running app) /\
    state app1 = (if is_escape ev then GAMEOVER else state app) /\
    stats_history_prey app1 = stats_history_prey app /\
    stats_history_pred app1 = stats_history_pred app.
Proof.
  intros Hz.
  assert (Hnil : forall a, a = app ->
    exists app1 spawned,
      Some (a, k) = Some (app1, (k + 3 * length spawned)%nat) /\
      food app1 = food app /\ prey app1 = prey app /\
      preds app1 = preds app ++ spawned /\ length spawned = 0%nat /\
      Forall spawned_predator spawned /\
      zoom_level (camera app1) = zoom_level (camera app) /\
      overview_mode (camera app1) = xorb false (overview_mode (camera app)) /\
      running app1 = running app /\ state app1 = state app /\
      stats_history_prey app1 = stats_history_prey app /\
      stats_history_pred app1 = stats_history_pred app).
  { intros a ->. exists app, []. rewrite app_nil_r. simpl.
    replace (k + 0)%nat with k by lia. repeat split; auto. }
  destruct ev as [|key|button mouse|]; cbn [handle_event is_click is_quit is_escape].
  - exists (with_running app false), []. unfold ret. simpl.
    rewrite app_nil_r. replace (k + 0)%nat with k by lia.
    repeat split; auto.
  - destruct key; try (apply Hnil; reflexivity).
    exists (with_state app GAMEOVER), []. unfold ret. simpl.
    rewrite app_nil_r. replace (k + 0)%nat with k by lia.
    repeat split; auto.
  - set (cam := if (button =? 3)%Z then toggle_overview (camera app)
                else camera app).
    assert (Hcz : zoom_level cam = zoom_level (camera app)).
    { unfold cam, toggle_overview.
      destruct (button =? 3)%Z; [|reflexivity].
      destruct (negb (overview_mode (camera app))); reflexivity. }
    assert (Hco : overview_mode cam
                  = xorb (button =? 3)%Z (overview_mode (camera app))).
    { unfold cam, toggle_overview.
      destruct (button =? 3)%Z; [|reflexivity].
      destruct (overview_mode (camera app)); reflexivity. }
    destruct (button =? 1)%Z.
    + unfold bind at 1. unfold lift, unapply, vdiv.
      replace (Reqb (zoom_level cam) 0) with false
        by (symmetry; apply Reqb_false; now rewrite Hcz).
      unfold bind at 1. rewrite Predator_init_eq. unfold ret.
      eexists _, [_]. split; [do 2 f_equal; simpl; lia|].
      simpl. repeat split; auto.
      constructor; [|constructor]. repeat split.
    + unfold ret. eexists _, []. split; [do 2 f_equal; simpl; lia|].
      simpl. rewrite app_nil_r. repeat split; auto.
  - apply Hnil. reflexivity.
Qed.

(** X12.  What the input loop of [run_sim_logic] does with the events of a frame,
    at any zoom but zero: it never faults; it touches neither food, prey nor
    the histories; it appends one predator per left click, each active, with
    the default predator genome and energy 300, drawing three numbers for
    each; the view mode flips once per right click and the zoom is kept;
    [running] is cleared exactly by a [QUIT], and the state becomes
    [GAMEOVER] exactly by an escape key. *)
Theorem input_loop_effects draws evs app k :
  zoom_level (camera app) <> 0 ->
  exists app1 spawned,
    handle_events draws app evs k
      = Some (app1, (k + 3 * count_clicks 1 evs)%nat) /\
    food app1 = food app /\ prey app1 = prey app /\
    preds app1 = preds app ++ spawned /\
    length spawned = count_clicks 1 evs /\
    Forall spawned_predator spawned /\
    zoom_level (camera app1) = zoom_level (camera app) /\
    overview_mode (camera app1)
      = xorb (Nat.odd (count_clicks 3 evs)) (overview_mode (camera app)) /\
    running app1 = running app && negb (existsb is_quit evs) /\
    state app1 = (if existsb is_escape evs then GAMEOVER else state app) /\
    stats_history_prey app1 = stats_history_prey app /\
    stats_history_pred app1 = stats_history_pred app.
Proof.
  revert app k. induction evs as [|ev evs IH]; intros app k Hz.
  - exists app, []. simpl. unfold ret, count_clicks. simpl.
    rewrite app_nil_r, andb_true_r. replace (k + 0)%nat with k by lia.
    repeat split; auto.
  - destruct (handle_event_effects draws app ev k Hz)
      as (app0 & s0 & He & Hf0 & Hp0 & Hd0 & Hl0 & Hs0 & Hz0 & Ho0 & Hr0 & Hst0
          & Hhp0 & Hhd0).
    destruct (IH app0 (k + 3 * length s0)%nat) as
      (app1 & s1 & Hes & Hf1 & Hp1 & Hd1 & Hl1 & Hs1 & Hz1 & Ho1 & Hr1 & Hst1
       & Hhp1 & Hhd1).
    { now rewrite Hz0. }
    assert (Hc1 : count_clicks 1 (ev :: evs)
                  = (length s0 + count_clicks 1 evs)%nat).
    { unfold count_clicks. cbn [List.filter]. rewrite Hl0.
      destruct (is_click 1 ev); reflexivity. }
    exists app1, (s0 ++ s1). cbn [handle_events]. unfold bind. rewrite He.
    split; [rewrite Hes; do 2 f_equal; lia|].
    split; [congruence|]. split; [congruence|].
    split; [rewrite Hd1, Hd0; now rewrite app_assoc|].
    split; [rewrite length_app; lia|].
    split; [apply Forall_app; auto|].
    split; [congruence|].
    split.
    { rewrite Ho1, Ho0. unfold count_clicks. cbn [List.filter].
      destruct (is_click 3 ev); cbn [length];
        [rewrite Nat.odd_succ, <- Nat.negb_odd|];
        destruct (Nat.odd _), (overview_mode (camera app)); reflexivity. }
    split.
    { rewrite Hr1, Hr0. cbn [existsb].
      destruct (is_quit ev), (running app), (existsb is_quit evs); reflexivity. }
    split.
    { rewrite Hst1, Hst0. cbn [existsb].
      destruct (is_escape ev), (existsb is_escape evs); reflexivity. }
    split; congruence.
Qed.

Lemma input_loop_effects_witness :
  exists app1 spawned,
    handle_events half_draws c2_app
      [MOUSEBUTTONDOWN 3 (mkV 0 0); MOUSEBUTTONDOWN 1 (mkV 7 9); QUIT] 0%nat
      = Some (app1, (0 + 3 * count_clicks 1
           [MOUSEBUTTONDOWN 3 (mkV 0 0); MOUSEBUTTONDOWN 1 (mkV 7 9); QUIT])%nat) /\
    food app1 = food c2_app /\ prey app1 = prey c2_app /\
    preds app1 = preds c2_app ++ spawned /\
    length spawned = count_clicks 1
      [MOUSEBUTTONDOWN 3 (mkV 0 0); MOUSEBUTTONDOWN 1 (mkV 7 9); QUIT] /\
    Forall spawned_predator spawned /\
    zoom_level (camera app1) = zoom_level (camera c2_app) /\
    overview_mode (camera app1)
      = xorb (Nat.odd (count_clicks 3
          [MOUSEBUTTONDOWN 3 (mkV 0 0); MOUSEBUTTONDOWN 1 (mkV 7 9); QUIT]))
          (overview_mode (camera c2_app)) /\
    running app1 = running c2_app && negb (existsb is_quit
      [MOUSEBUTTONDOWN 3 (mkV 0 0); MOUSEBUTTONDOWN 1 (mkV 7 9); QUIT]) /\
    state app1 = (if existsb is_escape
      [MOUSEBUTTONDOWN 3 (mkV 0 0); MOUSEBUTTONDOWN 1 (mkV 7 9); QUIT]
                  then GAMEOVER else state c2_app) /\
    stats_history_prey app1 = stats_history_prey c2_app /\
    stats_history_pred app1 = stats_history_pred c2_app.
Proof.
  apply (input_loop_effects half_draws
           [MOUSEBUTTONDOWN 3 (mkV 0 0); MOUSEBUTTONDOWN 1 (mkV 7 9); QUIT]
           c2_app 0%nat).
  simpl. lra.
Defined.
